(** * Chat logger plugin (src/plugins/chat_logger.py)

    A shallow embedding of [ChatLoggerPlugin]: the group filter, the
    extraction of a text from a duck-typed message chain, the two event
    handlers, the record store behind them and the plugin's lifecycle
    ([initialize], [destroy]).

    Python values are modelled by what the plugin observes of them
    (attributes, [str()], [isinstance(_, str)], iteration); exceptions are
    values of an error monad over the plugin's world (its fields, the
    [chat_records] table, the log, the disposed engines). *)

From Stdlib Require Import List String Ascii ZArith NArith Bool Lia.
From Stdlib Require Import DecimalString Permutation.
Import ListNotations.

Set Implicit Arguments.
Set Warnings "-register-all".


(** ** Python strings *)

(** A Python [str] is a sequence of Unicode code points. *)
Definition pystr := list N.

(** A literal of the source, written as an ASCII string. *)
Definition lit (s : string) : pystr :=
  map N_of_ascii (list_ascii_of_string s).

Definition pystr_eqb (a b : pystr) : bool :=
  if list_eq_dec N.eq_dec a b then true else false.

(** [x in l] for a list of strings. *)
Definition pystr_mem (x : pystr) (l : list pystr) : bool :=
  existsb (pystr_eqb x) l.

(** The code points [str.strip()] removes (those with [str.isspace()]). *)
Definition is_space (c : N) : bool :=
  ((9 <=? c) && (c <=? 13) || (28 <=? c) && (c <=? 32)
   || (c =? 133) || (c =? 160) || (c =? 5760)
   || (8192 <=? c) && (c <=? 8202)
   || (c =? 8232) || (c =? 8233) || (c =? 8239) || (c =? 8287)
   || (c =? 12288))%N.

Fixpoint lstrip (s : pystr) : pystr :=
  match s with
  | [] => []
  | c :: s' => if is_space c then lstrip s' else s
  end.

Definition rstrip (s : pystr) : pystr := rev (lstrip (rev s)).

(** [s.strip()] *)
Definition strip (s : pystr) : pystr := rstrip (lstrip s).

(** The text is empty or made of white space only. *)
Definition whitespace_only (s : pystr) : Prop :=
  forall c, In c s -> is_space c = true.

(** ** Python values, as the plugin observes them *)

(** [PyList] and [PyObj] carry the text [str()] gives for them: the
    rendering of a list or of an instance is the interpreter's or the
    class's, not the plugin's.  [PyObj] is an instance with its attributes
    (data attributes; the first binding of a name counts). *)
Inductive pyval : Type :=
| PyNone
| PyBool (b : bool)
| PyInt (z : Z)
| PyStr (s : pystr)
| PyList (shown : pystr) (items : list pyval)
| PyObj (shown : pystr) (attrs : list (string * pyval)).

Fixpoint assoc (name : string) (attrs : list (string * pyval)) : option pyval :=
  match attrs with
  | [] => None
  | (k, v) :: rest => if String.eqb k name then Some v else assoc name rest
  end.

(** [getattr(v, name)]; [None] is Python's [AttributeError], so
    [hasattr(v, name)] is [py_getattr v name <> None].  None of the names
    the plugin probes is an attribute of [None], [bool], [int], [str] or
    [list]. *)
Definition py_getattr (v : pyval) (name : string) : option pyval :=
  match v with
  | PyObj _ attrs => assoc name attrs
  | _ => None
  end.

Definition py_hasattr (v : pyval) (name : string) : bool :=
  match py_getattr v name with Some _ => true | None => false end.

(** [str(v)] *)
Definition py_str (v : pyval) : pystr :=
  match v with
  | PyNone => lit "None"
  | PyBool true => lit "True"
  | PyBool false => lit "False"
  | PyInt z => lit (NilZero.string_of_int (Z.to_int z))
  | PyStr s => s
  | PyList shown _ => shown
  | PyObj shown _ => shown
  end.

(** [isinstance(v, str)] *)
Definition is_str (v : pyval) : bool :=
  match v with PyStr _ => true | _ => false end.

(** What [for msg in v] iterates over; [None] when [v] is not iterable
    ([TypeError]).  A [str] iterates over its one-character strings. *)
Definition py_iter (v : pyval) : option (list pyval) :=
  match v with
  | PyList _ items => Some items
  | PyStr s => Some (map (fun c => PyStr [c]) s)
  | _ => None
  end.

(** ** Exceptions and results *)

(** The subclasses of [Exception] the model raises; [BackendError] is
    whatever the database driver raised. *)
Inductive exn : Type :=
| TypeError
| AttributeError
| BackendError (detail : pystr).

Inductive result (A : Type) : Type :=
| Ok (a : A)
| Raise (e : exn).
Arguments Ok {A} a.
Arguments Raise {A} e.

(** ** The plugin's fields *)

Inductive AsyncEngine : Type := create_async_engine (url : pystr).
Inductive async_sessionmaker : Type := sessionmaker (bind : AsyncEngine).

Record ChatLoggerPlugin : Type := {
  engine : option AsyncEngine;
  session_factory : option async_sessionmaker;
  database_url : pystr;
  database_name : pystr;
  include_bot_messages : bool;
  group_whitelist : list pystr;
  group_blacklist : list pystr
}.

(** [ChatLoggerPlugin.__init__] *)
Definition __init__ : ChatLoggerPlugin := {|
  engine := None;
  session_factory := None;
  database_url := lit "sqlite+aiosqlite:///./chat_logs.db";
  database_name := lit "langbot_chat";
  include_bot_messages := true;
  group_whitelist := [];
  group_blacklist := []
|}.

(** ** Group filter *)

(** [_should_log_group] *)
Definition _should_log_group (self : ChatLoggerPlugin) (group_id : pyval) : bool :=
  let group_id_str := py_str group_id in
  if match group_whitelist self with [] => false | _ :: _ => true end
     && negb (pystr_mem group_id_str (group_whitelist self))
  then false
  else if pystr_mem group_id_str (group_blacklist self)
  then false
  else true.

(** ** Extraction of the message text (the body of
    [on_group_message_received], lines 161 to 179) *)

(** One turn of the loop over [message_chain.messages]:
    [message_text += ...] for the sub-part [msg]. *)
Definition add_part (message_text : pystr) (msg : pyval) : result pystr :=
  match py_getattr msg "text" with
  | Some (PyStr t) => Ok (message_text ++ t)
  | Some _ => Raise TypeError
  | None =>
      match py_getattr msg "content" with
      | Some (PyStr c) => Ok (message_text ++ c)
      | _ =>
          match msg with
          | PyStr s => Ok (message_text ++ s)
          | _ => Ok message_text
          end
      end
  end.

Fixpoint add_parts (message_text : pystr) (msgs : list pyval) : result pystr :=
  match msgs with
  | [] => Ok message_text
  | msg :: rest =>
      match add_part message_text msg with
      | Ok message_text' => add_parts message_text' rest
      | Raise e => Raise e
      end
  end.

(** The value of [message_text] after the [if]/[elif] chain, or the
    exception the chain raised. *)
Definition extract_message_text (message_chain : pyval) : result pyval :=
  match py_getattr message_chain "messages" with
  | Some messages =>
      match py_iter messages with
      | Some msgs =>
          match add_parts [] msgs with
          | Ok message_text => Ok (PyStr message_text)
          | Raise e => Raise e
          end
      | None => Raise TypeError
      end
  | None =>
      match py_getattr message_chain "text" with
      | Some text => Ok text
      | None =>
          match message_chain with
          | PyStr s => Ok (PyStr s)
          | _ => Ok (PyStr (py_str message_chain))
          end
      end
  end.

(** [v.strip()]: only a [str] has the method; on any other value the call
    raises (an instance with a data attribute of that name is not
    callable). *)
Definition py_strip (v : pyval) : result pystr :=
  match v with
  | PyStr s => Ok (strip s)
  | _ =>
      match py_getattr v "strip" with
      | Some _ => Raise TypeError
      | None => Raise AttributeError
      end
  end.

(** ** Stored records, the log and the world *)

(** A row of [chat_records].  [id] is assigned by the database on insert
    and is the row's position in the table; [nickname] is the value the
    handler passed ([PyNone] when unknown). *)
Record ChatRecord : Type := {
  user_id : pystr;
  nickname : pyval;
  message : pystr;
  timestamp : Z;
  group_id : pystr;
  is_bot_message : bool
}.

Inductive level : Type := DEBUG | INFO | WARNING | ERROR.

(** The messages the plugin logs, each with the values it interpolates. *)
Inductive log_msg : Type :=
| PluginInitialized (name : pystr)
| ShowGroupWhitelist (l : list pystr)
| ShowGroupBlacklist (l : list pystr)
| ShowIncludeBotMessages (b : bool)
| InitializeFailed (e : exn)
| TablesCreated
| DatabaseInitFailed (e : exn)
| DatabaseNotInitialized
| SavedChatRecord (user group : pystr)
| SaveFailed (e : exn)
| GroupMessageError (e : exn)
| BotResponseError (e : exn)
| ConnectionClosed
| CleanupError (e : exn).

Record LogRecord : Type := { levelname : level; msg : log_msg }.

(** Everything a call of the plugin can read or change: its own fields,
    the table, the log, and the engines whose [dispose()] completed. *)
Record world : Type := {
  plugin : ChatLoggerPlugin;
  chat_records : list ChatRecord;
  log : list LogRecord;
  disposed : list AsyncEngine
}.

Definition fresh : world :=
  {| plugin := __init__; chat_records := []; log := []; disposed := [] |}.

Definition with_plugin (p : ChatLoggerPlugin) (w : world) : world :=
  {| plugin := p; chat_records := chat_records w;
     log := log w; disposed := disposed w |}.

Definition add_row (r : ChatRecord) (w : world) : world :=
  {| plugin := plugin w; chat_records := chat_records w ++ [r];
     log := log w; disposed := disposed w |}.

Definition add_log (lvl : level) (m : log_msg) (w : world) : world :=
  {| plugin := plugin w; chat_records := chat_records w;
     log := log w ++ [{| levelname := lvl; msg := m |}];
     disposed := disposed w |}.

Definition add_disposed (e : AsyncEngine) (w : world) : world :=
  {| plugin := plugin w; chat_records := chat_records w;
     log := log w; disposed := disposed w ++ [e] |}.

(** ** A state and exception monad *)

Definition M (A : Type) : Type := world -> result A * world.

Definition ret {A} (a : A) : M A := fun w => (Ok a, w).

Definition bind {A B} (m : M A) (k : A -> M B) : M B :=
  fun w =>
    match m w with
    | (Ok a, w') => k a w'
    | (Raise e, w') => (Raise e, w')
    end.

Definition raise {A} (e : exn) : M A := fun w => (Raise e, w).

(** [try: body / except Exception as e: handler e]; what [body] did to the
    world before it raised stays done. *)
Definition try_except {A} (body : M A) (handler : exn -> M A) : M A :=
  fun w =>
    match body w with
    | (Ok a, w') => (Ok a, w')
    | (Raise e, w') => handler e w'
    end.

Declare Scope monad_scope.
Delimit Scope monad_scope with monad.
Notation "x <- m ;; k" := (bind m (fun x => k))
  (at level 61, m at next level, right associativity) : monad_scope.
Notation "m ;; k" := (bind m (fun _ => k))
  (at level 61, right associativity) : monad_scope.
Open Scope monad_scope.

Definition get_self : M ChatLoggerPlugin := fun w => (Ok (plugin w), w).

Definition set_self (p : ChatLoggerPlugin) : M unit :=
  fun w => (Ok tt, with_plugin p w).

(** [self.logger.<lvl>(m)] *)
Definition logger (lvl : level) (m : log_msg) : M unit :=
  fun w => (Ok tt, add_log lvl m w).

(** ** The database, from outside *)

(** What the clock and the database do during one call of
    [_save_chat_record]: the time [datetime.utcnow()] gives, and whether
    the unit of work (open a session, add, commit) goes through or raises. *)
Record backend : Type := { utcnow : Z; unit_of_work : option exn }.

(** [async with self.session_factory() as session: session.add(record);
    await session.commit()]: the row is in the table when the commit went
    through, and not otherwise. *)
Definition commit (io : backend) (record : ChatRecord) : M unit :=
  fun w =>
    match unit_of_work io with
    | None => (Ok tt, add_row record w)
    | Some e => (Raise e, w)
    end.

(** What the driver does during [_init_database]: [create_async_engine]
    and [create_all] each go through or raise. *)
Record driver : Type := { engine_creation : option exn; schema_creation : option exn }.

Definition outcome (o : option exn) : M unit :=
  match o with None => ret tt | Some e => raise e end.

(** [await engine.dispose()] *)
Definition dispose (o : option exn) (e : AsyncEngine) : M unit :=
  fun w =>
    match o with
    | None => (Ok tt, add_disposed e w)
    | Some x => (Raise x, w)
    end.

(** ** Events *)

(** Modelled from the spec: the event classes of [pkg.plugin.events],
    which the plugin imports, with the fields the spec's section 6 lists
    for a group message.  The ids are any value ([str()] is applied to
    them); [sender_name] is [None] when the event has no such attribute;
    the message chain and the query are probed with [hasattr]. *)
Module GroupMessageReceived.
Record t : Type := {
  launcher_id : pyval;
  sender_id : pyval;
  sender_name : option pyval;
  message_chain : pyval;
  query : pyval
}.
End GroupMessageReceived.

(** Modelled from the spec: the bot response event of [pkg.plugin.events]
    (section 6): the prefix and the response text are optional texts. *)
Module NormalMessageResponded.
Record t : Type := {
  launcher_type : pyval;
  launcher_id : pyval;
  prefix : option pystr;
  response_text : option pystr;
  query : pyval
}.
End NormalMessageResponded.

(** ** Saving a record *)

(** [_save_chat_record] *)
Definition _save_chat_record (io : backend) (user_id : pyval) (nickname : pyval)
    (message : pystr) (group_id : pyval) (is_bot_message : bool) : M unit :=
  self <- get_self ;;
  match session_factory self with
  | None => logger WARNING DatabaseNotInitialized
  | Some _ =>
      try_except
        (let record :=
           {| user_id := py_str user_id;
              nickname := nickname;
              message := message;
              group_id := py_str group_id;
              is_bot_message := is_bot_message;
              timestamp := utcnow io |} in
         commit io record ;;
         logger DEBUG (SavedChatRecord (py_str user_id) (py_str group_id)))
        (fun e => logger ERROR (SaveFailed e))
  end.

(** ** Handlers *)

(** The nickname of [on_group_message_received] (lines 186 to 194). *)
Definition sender_nickname (event : GroupMessageReceived.t) : pyval :=
  match GroupMessageReceived.sender_name event with
  | Some name => name
  | None =>
      match py_getattr (GroupMessageReceived.query event) "message_event" with
      | Some message_event =>
          match py_getattr message_event "sender" with
          | Some sender =>
              match py_getattr sender "nickname" with
              | Some n => n
              | None =>
                  match py_getattr sender "card" with
                  | Some c => c
                  | None => PyNone
                  end
              end
          | None => PyNone
          end
      | None => PyNone
      end
  end.

Definition lift {A} (r : result A) : M A := fun w => (r, w).

(** [on_group_message_received] *)
Definition on_group_message_received (io : backend)
    (event : GroupMessageReceived.t) : M unit :=
  try_except
    (self <- get_self ;;
     if negb (_should_log_group self (GroupMessageReceived.launcher_id event))
     then ret tt
     else
       message_text <- lift (extract_message_text
                               (GroupMessageReceived.message_chain event)) ;;
       stripped <- lift (py_strip message_text) ;;
       (* past [strip()], [message_text] is a [str] *)
       match stripped, message_text with
       | _ :: _, PyStr message =>
           _save_chat_record io
             (GroupMessageReceived.sender_id event)
             (sender_nickname event)
             message
             (GroupMessageReceived.launcher_id event)
             false
       | _, _ => ret tt
       end)
    (fun e => logger ERROR (GroupMessageError e)).

(** [if event.prefix: full_response += event.prefix] and the same for the
    response text. *)
Definition add_segment (full_response : pystr) (segment : option pystr) : pystr :=
  match segment with
  | Some (c :: s) => full_response ++ c :: s
  | _ => full_response
  end.

(** The bot's user id (lines 238 to 240). *)
Definition bot_user_id (event : NormalMessageResponded.t) : pyval :=
  match py_getattr (NormalMessageResponded.query event) "adapter" with
  | Some adapter =>
      match py_getattr adapter "bot_account_id" with
      | Some id => id
      | None => PyStr (lit "bot")
      end
  | None => PyStr (lit "bot")
  end.

(** [event.launcher_type != 'group'] *)
Definition is_group (launcher_type : pyval) : bool :=
  match launcher_type with
  | PyStr s => pystr_eqb s (lit "group")
  | _ => false
  end.

(** [on_normal_message_responded] *)
Definition on_normal_message_responded (io : backend)
    (event : NormalMessageResponded.t) : M unit :=
  try_except
    (self <- get_self ;;
     if negb (include_bot_messages self) then ret tt
     else if negb (is_group (NormalMessageResponded.launcher_type event))
     then ret tt
     else if negb (_should_log_group self (NormalMessageResponded.launcher_id event))
     then ret tt
     else
       let full_response := [] in
       let full_response :=
         add_segment full_response (NormalMessageResponded.prefix event) in
       let full_response :=
         add_segment full_response (NormalMessageResponded.response_text event) in
       match strip full_response with
       | [] => ret tt
       | _ :: _ =>
           _save_chat_record io
             (bot_user_id event)
             (PyStr (lit "LangBot"))
             full_response
             (NormalMessageResponded.launcher_id event)
             true
       end)
    (fun e => logger ERROR (BotResponseError e)).

(** ** Lifecycle *)

(** [self.config]: each option is absent or holds a value of the
    annotated type. *)
Record Config : Type := {
  cfg_database_url : option pystr;
  cfg_database_name : option pystr;
  cfg_include_bot_messages : option bool;
  cfg_group_whitelist : option (list pystr);
  cfg_group_blacklist : option (list pystr)
}.

Definition empty_config : Config :=
  {| cfg_database_url := None; cfg_database_name := None;
     cfg_include_bot_messages := None;
     cfg_group_whitelist := None; cfg_group_blacklist := None |}.

(** [config.get(key, default)] *)
Definition get_or {A} (o : option A) (default : A) : A :=
  match o with Some v => v | None => default end.

(** Lines 67 to 72 of [initialize]. *)
Definition load_config (config : option Config) (self : ChatLoggerPlugin)
    : ChatLoggerPlugin :=
  let config := get_or config empty_config in
  {| engine := engine self;
     session_factory := session_factory self;
     database_url := get_or (cfg_database_url config) (database_url self);
     database_name := get_or (cfg_database_name config) (database_name self);
     include_bot_messages :=
       get_or (cfg_include_bot_messages config) (include_bot_messages self);
     group_whitelist := get_or (cfg_group_whitelist config) (group_whitelist self);
     group_blacklist := get_or (cfg_group_blacklist config) (group_blacklist self) |}.

Definition set_engine (e : AsyncEngine) (self : ChatLoggerPlugin) : ChatLoggerPlugin :=
  {| engine := Some e;
     session_factory := session_factory self;
     database_url := database_url self;
     database_name := database_name self;
     include_bot_messages := include_bot_messages self;
     group_whitelist := group_whitelist self;
     group_blacklist := group_blacklist self |}.

Definition set_session_factory (f : async_sessionmaker) (self : ChatLoggerPlugin)
    : ChatLoggerPlugin :=
  {| engine := engine self;
     session_factory := Some f;
     database_url := database_url self;
     database_name := database_name self;
     include_bot_messages := include_bot_messages self;
     group_whitelist := group_whitelist self;
     group_blacklist := group_blacklist self |}.

(** [_init_database] *)
Definition _init_database (db : driver) : M unit :=
  try_except
    (self <- get_self ;;
     outcome (engine_creation db) ;;
     let e := create_async_engine (database_url self) in
     set_self (set_engine e self) ;;
     self <- get_self ;;
     set_self (set_session_factory (sessionmaker e) self) ;;
     outcome (schema_creation db) ;;
     logger INFO TablesCreated)
    (fun e => logger ERROR (DatabaseInitFailed e) ;; raise e).

(** [initialize] *)
Definition initialize (config : option Config) (db : driver) : M unit :=
  try_except
    (self <- get_self ;;
     set_self (load_config config self) ;;
     _init_database db ;;
     self <- get_self ;;
     logger INFO (PluginInitialized (database_name self)) ;;
     logger INFO (ShowGroupWhitelist (group_whitelist self)) ;;
     logger INFO (ShowGroupBlacklist (group_blacklist self)) ;;
     logger INFO (ShowIncludeBotMessages (include_bot_messages self)))
    (fun e => logger ERROR (InitializeFailed e) ;; raise e).

(** [destroy] *)
Definition destroy (o : option exn) : M unit :=
  try_except
    (self <- get_self ;;
     match engine self with
     | Some e =>
         dispose o e ;;
         logger INFO ConnectionClosed
     | None => ret tt
     end)
    (fun e => logger ERROR (CleanupError e)).

(** ** Calls from the host *)

Inductive call : Type :=
| Initialize (config : option Config) (db : driver)
| GroupMessage (io : backend) (event : GroupMessageReceived.t)
| BotResponse (io : backend) (event : NormalMessageResponded.t)
| Destroy (o : option exn).

Definition perform (c : call) : M unit :=
  match c with
  | Initialize config db => initialize config db
  | GroupMessage io event => on_group_message_received io event
  | BotResponse io event => on_normal_message_responded io event
  | Destroy o => destroy o
  end.

(** The host makes the calls one after the other, whatever each returned. *)
Fixpoint run (cs : list call) (w : world) : world :=
  match cs with
  | [] => w
  | c :: rest => run rest (snd (perform c w))
  end.

(** ** Notions the properties are stated with *)

(** The spec's filter policy and its procedure [shouldRecord], step by
    step as section 4.2 words it. *)
Record FilterPolicy : Type := { whitelist : list pystr; blacklist : list pystr }.

Definition policy (self : ChatLoggerPlugin) : FilterPolicy :=
  {| whitelist := group_whitelist self; blacklist := group_blacklist self |}.

Inductive shouldRecord (g : pyval) (p : FilterPolicy) : bool -> Prop :=
| not_whitelisted :
    whitelist p <> [] -> ~ In (py_str g) (whitelist p) -> shouldRecord g p false
| blacklisted :
    (whitelist p = [] \/ In (py_str g) (whitelist p)) ->
    In (py_str g) (blacklist p) -> shouldRecord g p false
| eligible :
    (whitelist p = [] \/ In (py_str g) (whitelist p)) ->
    ~ In (py_str g) (blacklist p) -> shouldRecord g p true.

(** What a sub-part contributes, in the spec's words: its text field if it
    has one, else its content field if that content is a string, else the
    sub-part itself if it is a plain string, else nothing. *)
Definition contribution (part : pyval) : pystr :=
  match py_getattr part "text" with
  | Some text => match text with PyStr s => s | _ => [] end
  | None =>
      match py_getattr part "content" with
      | Some (PyStr c) => c
      | _ => match part with PyStr s => s | _ => [] end
      end
  end.

(** The text field of a sub-part, when it has one, is a text. *)
Definition text_is_str (part : pyval) : Prop :=
  forall text, py_getattr part "text" = Some text -> is_str text = true.

(** The row [_save_chat_record] builds from its arguments. *)
Definition record_of (io : backend) (user_id nickname : pyval) (message : pystr)
    (group_id : pyval) (is_bot_message : bool) : ChatRecord :=
  {| user_id := py_str user_id;
     nickname := nickname;
     message := message;
     group_id := py_str group_id;
     is_bot_message := is_bot_message;
     timestamp := utcnow io |}.

(** Two worlds that differ in the log at most. *)
Definition same_store (w w' : world) : Prop :=
  plugin w' = plugin w /\ chat_records w' = chat_records w /\
  disposed w' = disposed w.

(** The event's group passes the filter and its message chain yields the
    text [t], which is neither empty nor white space only. *)
Definition recordable (self : ChatLoggerPlugin) (event : GroupMessageReceived.t)
    (t : pystr) : Prop :=
  _should_log_group self (GroupMessageReceived.launcher_id event) = true /\
  extract_message_text (GroupMessageReceived.message_chain event) = Ok (PyStr t) /\
  ~ whitespace_only t.

(** The text of a bot response: the prefix, then the response text. *)
Definition full_response (event : NormalMessageResponded.t) : pystr :=
  add_segment (add_segment [] (NormalMessageResponded.prefix event))
    (NormalMessageResponded.response_text event).

Definition bot_recordable (self : ChatLoggerPlugin)
    (event : NormalMessageResponded.t) : Prop :=
  include_bot_messages self = true /\
  NormalMessageResponded.launcher_type event = PyStr (lit "group") /\
  _should_log_group self (NormalMessageResponded.launcher_id event) = true /\
  ~ whitespace_only (full_response event).

(** A computation is blind to the log when, started in two worlds that
    differ in the log at most, it gives the same result and leaves two
    worlds that differ in the log at most. *)
Definition log_blind {A} (m : M A) : Prop :=
  forall w1 w2, same_store w1 w2 ->
    fst (m w1) = fst (m w2) /\ same_store (snd (m w1)) (snd (m w2)).

(** The call is an event whose append cannot go through: the store was
    never made ready, or the unit of work raises. *)
Definition append_fails (w : world) (c : call) : Prop :=
  match c with
  | GroupMessage io _ | BotResponse io _ =>
      session_factory (plugin w) = None \/ unit_of_work io <> None
  | _ => False
  end.

(** The event gets as far as [_save_chat_record]. *)
Definition reaches_save (self : ChatLoggerPlugin) (c : call) : Prop :=
  match c with
  | GroupMessage _ event => exists t, recordable self event t
  | BotResponse _ event => bot_recordable self event
  | _ => False
  end.

(** The entry a failing append leaves in the log. *)
Definition failure_entry (w : world) (c : call) (entry : LogRecord) : Prop :=
  match c with
  | GroupMessage io _ | BotResponse io _ =>
      match session_factory (plugin w), unit_of_work io with
      | None, _ => entry = {| levelname := WARNING; msg := DatabaseNotInitialized |}
      | Some _, Some e => entry = {| levelname := ERROR; msg := SaveFailed e |}
      | Some _, None => False
      end
  | _ => False
  end.

Definition message_present (r : ChatRecord) : Prop :=
  message r <> [] /\ ~ whitespace_only (message r).

Definition ids_present (r : ChatRecord) : Prop :=
  user_id r <> [] /\ group_id r <> [].

(** The ids of the event have non-empty string forms. *)
Definition names_ids (c : call) : Prop :=
  match c with
  | GroupMessage _ event =>
      py_str (GroupMessageReceived.sender_id event) <> [] /\
      py_str (GroupMessageReceived.launcher_id event) <> []
  | BotResponse _ event =>
      py_str (bot_user_id event) <> [] /\
      py_str (NormalMessageResponded.launcher_id event) <> []
  | _ => True
  end.

(** The initialization fails with [x]: creating the engine raises it, or
    creating the schema does. *)
Definition init_fails (db : driver) (x : exn) : Prop :=
  engine_creation db = Some x \/
  (engine_creation db = None /\ schema_creation db = Some x).

(** ** Sample worlds and events *)

Definition sample_parts : list pyval :=
  [ PyObj (lit "Plain") [("text"%string, PyStr (lit "ab"))];
    PyObj (lit "Image") [("url"%string, PyStr (lit "http://x"))];
    PyStr (lit "cd");
    PyObj (lit "Card") [("content"%string, PyInt 7)];
    PyObj (lit "Message") [("content"%string, PyStr (lit " ef"))] ].

Definition sample_chain : pyval :=
  PyObj (lit "MessageChain")
    [("messages"%string, PyList (lit "[...]") sample_parts)].

Definition working : driver := {| engine_creation := None; schema_creation := None |}.

(** The plugin after a successful [initialize] with no configuration. *)
Definition opened : world := run [Initialize None working] fresh.

Definition accepting : backend := {| utcnow := 1700000000; unit_of_work := None |}.

Definition alice (message_chain : pyval) : GroupMessageReceived.t :=
  {| GroupMessageReceived.launcher_id := PyStr (lit "g1");
     GroupMessageReceived.sender_id := PyStr (lit "u1");
     GroupMessageReceived.sender_name := Some (PyStr (lit "Alice"));
     GroupMessageReceived.message_chain := message_chain;
     GroupMessageReceived.query := PyNone |}.

Definition reply (launcher_type : pystr) (query : pyval) : NormalMessageResponded.t :=
  {| NormalMessageResponded.launcher_type := PyStr launcher_type;
     NormalMessageResponded.launcher_id := PyStr (lit "g1");
     NormalMessageResponded.prefix := Some (lit "[bot] ");
     NormalMessageResponded.response_text := Some (lit "hi");
     NormalMessageResponded.query := query |}.

(** A query whose adapter knows the bot's account. *)
Definition adapter_query : pyval :=
  PyObj (lit "Query")
    [("adapter"%string,
      PyObj (lit "Adapter") [("bot_account_id"%string, PyInt 10001)])].

(** A text with white space at both ends, the last of it a line feed. *)
Definition padded : pystr := lit "  hi " ++ [10%N].

Definition refusing : backend :=
  {| utcnow := 1699999999;
     unit_of_work := Some (BackendError (lit "database is locked")) |}.

Definition anonymous : GroupMessageReceived.t :=
  {| GroupMessageReceived.launcher_id := PyStr [];
     GroupMessageReceived.sender_id := PyStr [];
     GroupMessageReceived.sender_name := None;
     GroupMessageReceived.message_chain := PyStr (lit "hello");
     GroupMessageReceived.query := PyNone |}.

Definition no_schema : driver :=
  {| engine_creation := None;
     schema_creation := Some (BackendError (lit "connection timed out")) |}.

Definition no_engine : driver :=
  {| engine_creation := Some (BackendError (lit "no such driver"));
     schema_creation := None |}.

Definition default_engine : AsyncEngine :=
  create_async_engine (lit "sqlite+aiosqlite:///./chat_logs.db").

(** ** Notions of the further properties *)

(** The plugin of [__init__] with the two lists of a configuration. *)
Definition with_lists (white black : list pystr) : ChatLoggerPlugin :=
  load_config
    (Some {| cfg_database_url := None; cfg_database_name := None;
             cfg_include_bot_messages := None;
             cfg_group_whitelist := Some white;
             cfg_group_blacklist := Some black |}) __init__.

(** The options [initialize] reads from the configuration. *)
Definition settings (self : ChatLoggerPlugin)
    : pystr * pystr * bool * list pystr * list pystr :=
  (database_url self, database_name self, include_bot_messages self,
   group_whitelist self, group_blacklist self).

Definition is_initialize (c : call) : bool :=
  match c with Initialize _ _ => true | _ => false end.

Definition is_event (c : call) : bool :=
  match c with GroupMessage _ _ | BotResponse _ _ => true | _ => false end.

Definition is_destroy (c : call) : bool :=
  match c with Destroy _ => true | _ => false end.

(** The sub-part has a text field that is not a text. *)
Definition bad_text (part : pyval) : Prop :=
  exists text, py_getattr part "text" = Some text /\ is_str text = false.

(** The sub-part has no text field, no content that is a string, and is
    not a string itself: an image, say. *)
Definition no_text (part : pyval) : Prop :=
  py_getattr part "text" = None /\
  (forall c, py_getattr part "content" <> Some (PyStr c)) /\
  is_str part = false.

(** The rows a call adds to the table, computed from the plugin's fields
    and the call alone: the record of a group message or of a bot response
    that passes every test of its handler, when the store is ready and the
    commit goes through. *)
Definition new_rows (self : ChatLoggerPlugin) (c : call) : list ChatRecord :=
  match c with
  | GroupMessage io event =>
      if _should_log_group self (GroupMessageReceived.launcher_id event) then
        match extract_message_text (GroupMessageReceived.message_chain event) with
        | Ok (PyStr t) =>
            match strip t, session_factory self, unit_of_work io with
            | _ :: _, Some _, None =>
                [record_of io (GroupMessageReceived.sender_id event)
                   (sender_nickname event) t
                   (GroupMessageReceived.launcher_id event) false]
            | _, _, _ => []
            end
        | _ => []
        end
      else []
  | BotResponse io event =>
      if include_bot_messages self
         && is_group (NormalMessageResponded.launcher_type event)
         && _should_log_group self (NormalMessageResponded.launcher_id event)
      then
        match strip (full_response event), session_factory self, unit_of_work io with
        | _ :: _, Some _, None =>
            [record_of io (bot_user_id event) (PyStr (lit "LangBot"))
               (full_response event)
               (NormalMessageResponded.launcher_id event) true]
        | _, _, _ => []
        end
      else []
  | _ => []
  end.

(** Two worlds with the same plugin fields and the same table. *)
Definition same_table (w w' : world) : Prop :=
  plugin w' = plugin w /\ chat_records w' = chat_records w.

(** A computation that, started in two worlds related by [R], gives the
    same result and leaves two worlds related by [R]. *)
Definition respects (R : world -> world -> Prop) {A} (m : M A) : Prop :=
  forall w1 w2, R w1 w2 ->
    fst (m w1) = fst (m w2) /\ R (snd (m w1)) (snd (m w2)).

(** The session factory is bound to the plugin's engine, and there is one
    exactly when there is the other. *)
Definition factory_bound (self : ChatLoggerPlugin) : Prop :=
  session_factory self = option_map sessionmaker (engine self).

(** A message chain with the sub-parts [parts]. *)
Definition chain_of (parts : list pyval) : pyval :=
  PyObj (lit "MessageChain") [("messages"%string, PyList (lit "[...]") parts)].

(** Sub-parts without any text. *)
Definition pictures : list pyval :=
  [PyObj (lit "Image") [("url"%string, PyStr (lit "http://x"))];
   PyObj (lit "Card") [("content"%string, PyInt 7)];
   PyNone].

(** Sub-parts the second of which has [None] for text. *)
Definition spoiled : list pyval :=
  [PyStr (lit "kept? ");
   PyObj (lit "Plain") [("text"%string, PyNone)];
   PyStr (lit "no")].

(** * Properties *)

(** ** Strings *)

Lemma pystr_eqb_eq (a b : pystr) : pystr_eqb a b = true <-> a = b.
Proof.
  unfold pystr_eqb. destruct (list_eq_dec N.eq_dec a b); split; congruence.
Qed.

Lemma pystr_eqb_refl (a : pystr) : pystr_eqb a a = true.
Proof. now apply pystr_eqb_eq. Qed.

Lemma pystr_mem_In (x : pystr) (l : list pystr) : pystr_mem x l = true <-> In x l.
Proof.
  unfold pystr_mem. rewrite existsb_exists. split.
  - intros (y & Hy & E). apply pystr_eqb_eq in E. now subst.
  - intros H. exists x. split; [assumption | apply pystr_eqb_refl].
Qed.

Lemma pystr_mem_false (x : pystr) (l : list pystr) :
  pystr_mem x l = false <-> ~ In x l.
Proof.
  rewrite <- pystr_mem_In. destruct (pystr_mem x l); split; congruence.
Qed.

Lemma lstrip_nil (s : pystr) : lstrip s = [] <-> whitespace_only s.
Proof.
  unfold whitespace_only. induction s as [|c s IH]; simpl.
  - split; [intros _ c [] | reflexivity].
  - destruct (is_space c) eqn:E.
    + rewrite IH. split.
      * intros H d [<- | Hd]; auto.
      * intros H d Hd. apply H. now right.
    + split; [discriminate |].
      intros H. specialize (H c (or_introl eq_refl)). congruence.
Qed.

Lemma whitespace_only_rev (s : pystr) : whitespace_only (rev s) <-> whitespace_only s.
Proof.
  unfold whitespace_only. split; intros H c Hc; apply H.
  - now apply -> in_rev.
  - now apply <- in_rev in Hc.
Qed.

Lemma rstrip_nil (s : pystr) : rstrip s = [] <-> whitespace_only s.
Proof.
  unfold rstrip. rewrite <- whitespace_only_rev, <- lstrip_nil.
  split; intros H.
  - apply (f_equal (@rev N)) in H. now rewrite rev_involutive in H.
  - now rewrite H.
Qed.

Lemma lstrip_whitespace_only (s : pystr) :
  whitespace_only (lstrip s) <-> whitespace_only s.
Proof.
  unfold whitespace_only. induction s as [|c s IH]; simpl; [tauto |].
  destruct (is_space c) eqn:E; [| tauto].
  rewrite IH. split.
  - intros H d [<- | Hd]; auto.
  - intros H d Hd. apply H. now right.
Qed.

(** [not s.strip()] holds exactly for the empty and the all-white-space
    strings. *)
Lemma strip_nil (s : pystr) : strip s = [] <-> whitespace_only s.
Proof. unfold strip. now rewrite rstrip_nil, lstrip_whitespace_only. Qed.

Lemma strip_nonempty (s : pystr) : strip s <> [] -> s <> [].
Proof. intros H ->. now apply H. Qed.

Lemma lit_nonempty (c : ascii) (s : string) : lit (String c s) <> [].
Proof. discriminate. Qed.

(** The decimal rendering of an integer is never empty. *)
Lemma py_str_int_nonempty (z : Z) : py_str (PyInt z) <> [].
Proof.
  simpl. unfold NilZero.string_of_int, NilZero.string_of_uint.
  destruct (Z.to_int z) as [d | d]; [| discriminate].
  destruct d; discriminate.
Qed.

(** ** Group filter *)

Lemma should_log_group_true (self : ChatLoggerPlugin) (g : pyval) :
  _should_log_group self g = true <->
  (group_whitelist self = [] \/ In (py_str g) (group_whitelist self)) /\
  ~ In (py_str g) (group_blacklist self).
Proof.
  unfold _should_log_group.
  destruct (group_whitelist self) as [|x l] eqn:L; cbv beta iota zeta; cbn [andb].
  - destruct (pystr_mem (py_str g) (group_blacklist self)) eqn:B.
    + apply pystr_mem_In in B. split; [discriminate | tauto].
    + apply pystr_mem_false in B. split; [tauto | reflexivity].
  - destruct (pystr_mem (py_str g) (x :: l)) eqn:W; cbn [negb]; cbv iota.
    + apply pystr_mem_In in W.
      destruct (pystr_mem (py_str g) (group_blacklist self)) eqn:B.
      * apply pystr_mem_In in B. split; [discriminate | tauto].
      * apply pystr_mem_false in B. split; [tauto | reflexivity].
    + apply pystr_mem_false in W. split; [discriminate |].
      intros [[E | E] _]; [discriminate | tauto].
Qed.

(** C1. The decision of [_should_log_group] is the one the procedure of
    section 4.2 gives for the string form of the group id: not eligible
    when a non-empty whitelist lacks it, else not eligible when the
    blacklist holds it, else eligible.  With both lists empty every group
    is eligible, and a group in both lists is not. *)
Theorem should_log_group_procedure (self : ChatLoggerPlugin) (g : pyval) :
  (forall b, _should_log_group self g = b <-> shouldRecord g (policy self) b) /\
  (_should_log_group self g = true <->
     (group_whitelist self = [] \/ In (py_str g) (group_whitelist self)) /\
     ~ In (py_str g) (group_blacklist self)) /\
  (group_whitelist self = [] -> group_blacklist self = [] ->
     _should_log_group self g = true) /\
  (In (py_str g) (group_whitelist self) -> In (py_str g) (group_blacklist self) ->
     _should_log_group self g = false).
Proof.
  pose proof (should_log_group_true self g) as T.
  assert (In (py_str g) (group_whitelist self) \/
          ~ In (py_str g) (group_whitelist self)) as Dw.
  { destruct (pystr_mem (py_str g) (group_whitelist self)) eqn:W;
      [left; now apply pystr_mem_In | right; now apply pystr_mem_false]. }
  assert (In (py_str g) (group_blacklist self) \/
          ~ In (py_str g) (group_blacklist self)) as Db.
  { destruct (pystr_mem (py_str g) (group_blacklist self)) eqn:B;
      [left; now apply pystr_mem_In | right; now apply pystr_mem_false]. }
  assert (group_whitelist self = [] \/ group_whitelist self <> []) as De.
  { destruct (group_whitelist self); [now left | now right]. }
  assert (_should_log_group self g = true \/ _should_log_group self g = false) as Dr.
  { destruct (_should_log_group self g); auto. }
  split; [| split; [exact T | split]].
  - intros b. split.
    + intros <-. destruct Dr as [E | E]; rewrite E.
      * apply eligible; now apply T.
      * assert (~ ((group_whitelist self = [] \/
                    In (py_str g) (group_whitelist self)) /\
                   ~ In (py_str g) (group_blacklist self))) as N.
        { intros C. apply T in C. congruence. }
        destruct Db as [B | B].
        -- destruct De as [L | L]; [apply blacklisted; simpl; tauto |].
           destruct Dw as [W | W];
             [apply blacklisted | apply not_whitelisted]; simpl; tauto.
        -- apply not_whitelisted; simpl; tauto.
    + intros H. destruct H as [N W | W B | W B]; simpl in *.
      * destruct Dr as [E | E]; [| exact E]. apply T in E. tauto.
      * destruct Dr as [E | E]; [| exact E]. apply T in E. tauto.
      * apply T. tauto.
  - intros W B. apply T. rewrite B. simpl. tauto.
  - intros W B. destruct Dr as [E | E]; [| exact E]. apply T in E. tauto.
Qed.

(** ** Extraction of the message text *)

Lemma add_part_contribution (acc : pystr) (part : pyval) :
  text_is_str part -> add_part acc part = Ok (acc ++ contribution part).
Proof.
  unfold text_is_str, add_part, contribution. intros H.
  destruct (py_getattr part "text") as [text |].
  - specialize (H text eq_refl). destruct text; try discriminate. reflexivity.
  - destruct (py_getattr part "content") as [[] |];
      destruct part; rewrite ?app_nil_r; reflexivity.
Qed.

Lemma add_parts_concat (parts : list pyval) : forall acc,
  Forall text_is_str parts ->
  add_parts acc parts = Ok (acc ++ List.concat (map contribution parts)).
Proof.
  induction parts as [|part parts IH]; intros acc H; simpl.
  - now rewrite app_nil_r.
  - inversion H as [|? ? Hp Hr]; subst.
    rewrite (add_part_contribution acc Hp), (IH _ Hr).
    now rewrite app_assoc.
Qed.

(** A sub-part whose text field is not a text stops the loop. *)
Lemma add_parts_raises (parts : list pyval) : forall acc,
  ~ Forall text_is_str parts -> add_parts acc parts = Raise TypeError.
Proof.
  induction parts as [|part parts IH]; intros acc H; simpl.
  - exfalso. apply H. constructor.
  - unfold add_part.
    destruct (py_getattr part "text") as [text |] eqn:T.
    + destruct text; try reflexivity.
      apply IH. intros F. apply H. constructor; [| exact F].
      intros t Ht. rewrite T in Ht. now inversion Ht.
    + assert (~ Forall text_is_str parts) as H'.
      { intros F. apply H. constructor; [| exact F].
        intros t Ht. rewrite T in Ht. discriminate. }
      destruct (py_getattr part "content") as [[] |]; destruct part;
        now apply IH.
Qed.

(** C4. For a message chain with a [messages] attribute that iterates over
    the sub-parts [parts], each text field being a text, the extracted text
    is the concatenation, in order, of the sub-parts' contributions;
    sub-parts that contribute nothing add the empty text and raise
    nothing. *)
Theorem extract_composite (message_chain messages : pyval) (parts : list pyval) :
  py_getattr message_chain "messages" = Some messages ->
  py_iter messages = Some parts ->
  Forall text_is_str parts ->
  extract_message_text message_chain =
    Ok (PyStr (List.concat (map contribution parts))).
Proof.
  intros Hm Hi Ht. unfold extract_message_text. rewrite Hm, Hi.
  now rewrite (add_parts_concat [] Ht).
Qed.

Lemma text_is_str_dec (part : pyval) :
  match py_getattr part "text" with
  | Some (PyStr _) | None => True
  | Some _ => False
  end -> text_is_str part.
Proof.
  unfold text_is_str. intros H text E. rewrite E in H.
  destruct text; simpl; tauto.
Qed.

Lemma extract_composite_witness :
  extract_message_text sample_chain = Ok (PyStr (lit "abcd ef")).
Proof.
  apply (@extract_composite sample_chain (PyList (lit "[...]") sample_parts)
           sample_parts); [reflexivity | reflexivity |].
  repeat constructor; apply text_is_str_dec; exact I.
Defined.

(** ** Saving a record *)

(** The three ways a call of [_save_chat_record] ends; it raises in none. *)
Lemma save_chat_record_cases (io : backend) (u n : pyval) (m : pystr) (g : pyval)
    (b : bool) (w : world) :
  _save_chat_record io u n m g b w =
    match session_factory (plugin w), unit_of_work io with
    | None, _ => (Ok tt, add_log WARNING DatabaseNotInitialized w)
    | Some _, None =>
        (Ok tt, add_log DEBUG (SavedChatRecord (py_str u) (py_str g))
                  (add_row (record_of io u n m g b) w))
    | Some _, Some e => (Ok tt, add_log ERROR (SaveFailed e) w)
    end.
Proof.
  unfold _save_chat_record, bind, get_self, try_except, commit, logger.
  destruct (session_factory (plugin w)); [| reflexivity].
  destruct (unit_of_work io); reflexivity.
Qed.

Lemma save_chat_record_returns (io : backend) (u n : pyval) (m : pystr) (g : pyval)
    (b : bool) (w : world) :
  fst (_save_chat_record io u n m g b w) = Ok tt.
Proof.
  rewrite save_chat_record_cases.
  destruct (session_factory (plugin w)), (unit_of_work io); reflexivity.
Qed.

Lemma same_store_refl (w : world) : same_store w w.
Proof. now repeat split. Qed.

Lemma same_store_add_log (lvl : level) (m : log_msg) (w : world) :
  same_store w (add_log lvl m w).
Proof. now repeat split. Qed.

Lemma try_except_ok {A} (body : M A) (handler : exn -> M A) (w : world) :
  (exists a, fst (body w) = Ok a) -> try_except body handler w = body w.
Proof.
  intros [a H]. unfold try_except. destruct (body w) as [[a' | e] w'];
    [reflexivity | discriminate].
Qed.

(** ** The group message handler *)

Lemma recordable_unique self event t t' :
  recordable self event t -> recordable self event t' -> t = t'.
Proof. intros (_ & E & _) (_ & E' & _). congruence. Qed.

(** Either the handler saves the record of a recordable event, or the
    event is not recordable and the handler returns with the store as it
    was. *)
Lemma group_message_cases (io : backend) (event : GroupMessageReceived.t)
    (w : world) :
  (exists t, recordable (plugin w) event t /\
     on_group_message_received io event w =
       _save_chat_record io (GroupMessageReceived.sender_id event)
         (sender_nickname event) t
         (GroupMessageReceived.launcher_id event) false w) \/
  ((forall t, ~ recordable (plugin w) event t) /\
     fst (on_group_message_received io event w) = Ok tt /\
     same_store w (snd (on_group_message_received io event w))).
Proof.
  unfold recordable.
  destruct (_should_log_group (plugin w) (GroupMessageReceived.launcher_id event))
    eqn:F.
  2:{ right. split; [intros t (C & _); discriminate |].
      unfold on_group_message_received, try_except, bind, get_self.
      rewrite F. simpl. split; [reflexivity | apply same_store_refl]. }
  destruct (extract_message_text (GroupMessageReceived.message_chain event))
    as [v | e] eqn:X.
  2:{ right. split; [intros t (_ & C & _); discriminate |].
      unfold on_group_message_received, try_except, bind, get_self, lift.
      rewrite F, X. simpl. split; [reflexivity | apply same_store_add_log]. }
  destruct v as [| b | z | s | sh items | sh attrs];
    try (right; split; [intros t (_ & C & _); discriminate |];
         unfold on_group_message_received, try_except, bind, get_self, lift;
         rewrite F, X; simpl;
         split; [reflexivity | apply same_store_add_log]).
  2:{ right; split; [intros t (_ & C & _); discriminate |].
      unfold on_group_message_received, try_except, bind, get_self, lift.
      rewrite F, X. simpl.
      destruct (assoc "strip" attrs); simpl;
        (split; [reflexivity | apply same_store_add_log]). }
  destruct (strip s) as [|c r] eqn:S.
  - right. split.
    + intros t (_ & C & N). inversion C; subst. apply N. now apply strip_nil.
    + unfold on_group_message_received, try_except, bind, get_self, lift.
      rewrite F, X. simpl. rewrite S. simpl.
      split; [reflexivity | apply same_store_refl].
  - left. exists s. split.
    + repeat split. intros N. apply strip_nil in N. congruence.
    + unfold on_group_message_received.
      rewrite try_except_ok.
      * unfold bind, get_self, lift. rewrite F, X. simpl. now rewrite S.
      * exists tt. unfold bind, get_self, lift. rewrite F, X. simpl. rewrite S.
        apply save_chat_record_returns.
Qed.

(** ** The bot response handler *)

Lemma full_response_concat (event : NormalMessageResponded.t) :
  full_response event =
    get_or (NormalMessageResponded.prefix event) [] ++
    get_or (NormalMessageResponded.response_text event) [].
Proof.
  unfold full_response, add_segment, get_or.
  destruct (NormalMessageResponded.prefix event) as [[|c p] |],
           (NormalMessageResponded.response_text event) as [[|d r] |];
    simpl; rewrite ?app_nil_r; reflexivity.
Qed.

Lemma is_group_true (v : pyval) : is_group v = true <-> v = PyStr (lit "group").
Proof.
  destruct v; simpl; try (split; [discriminate | discriminate]).
  rewrite pystr_eqb_eq. split; congruence.
Qed.

Lemma bot_response_cases (io : backend) (event : NormalMessageResponded.t)
    (w : world) :
  (bot_recordable (plugin w) event /\
     on_normal_message_responded io event w =
       _save_chat_record io (bot_user_id event) (PyStr (lit "LangBot"))
         (full_response event)
         (NormalMessageResponded.launcher_id event) true w) \/
  (~ bot_recordable (plugin w) event /\
     fst (on_normal_message_responded io event w) = Ok tt /\
     same_store w (snd (on_normal_message_responded io event w))).
Proof.
  unfold bot_recordable.
  destruct (include_bot_messages (plugin w)) eqn:I.
  2:{ right. split; [intros (C & _); discriminate |].
      unfold on_normal_message_responded, try_except, bind, get_self.
      rewrite I. simpl. split; [reflexivity | apply same_store_refl]. }
  destruct (is_group (NormalMessageResponded.launcher_type event)) eqn:G.
  2:{ right. split.
      - intros (_ & C & _). apply is_group_true in C. congruence.
      - unfold on_normal_message_responded, try_except, bind, get_self.
        rewrite I, G. simpl. split; [reflexivity | apply same_store_refl]. }
  destruct (_should_log_group (plugin w) (NormalMessageResponded.launcher_id event))
    eqn:F.
  2:{ right. split; [intros (_ & _ & C & _); discriminate |].
      unfold on_normal_message_responded, try_except, bind, get_self.
      rewrite I, G, F. simpl. split; [reflexivity | apply same_store_refl]. }
  destruct (strip (full_response event)) as [|c r] eqn:S.
  - right. split.
    + intros (_ & _ & _ & N). apply N. now apply strip_nil.
    + unfold on_normal_message_responded, try_except, bind, get_self.
      rewrite I, G, F. simpl. fold (full_response event). rewrite S. simpl.
      split; [reflexivity | apply same_store_refl].
  - left. split.
    + repeat split; [now apply is_group_true |].
      intros N. apply strip_nil in N. congruence.
    + unfold on_normal_message_responded.
      rewrite try_except_ok.
      * unfold bind, get_self. rewrite I, G, F. simpl.
        fold (full_response event). now rewrite S.
      * exists tt. unfold bind, get_self. rewrite I, G, F. simpl.
        fold (full_response event). rewrite S.
        apply save_chat_record_returns.
Qed.

(** ** What a call does to the store *)

Lemma not_whitespace_only (t : pystr) : strip t <> [] -> ~ whitespace_only t.
Proof. intros H W. now apply strip_nil in W. Qed.

Lemma app_one_neq {A} (l : list A) (x : A) : l <> l ++ [x].
Proof.
  intros E. apply (f_equal (@List.length A)) in E.
  rewrite length_app in E. simpl in E. lia.
Qed.

Lemma save_chat_record_effect (io : backend) (u n : pyval) (m : pystr) (g : pyval)
    (b : bool) (w : world) :
  let w' := snd (_save_chat_record io u n m g b w) in
  plugin w' = plugin w /\ disposed w' = disposed w /\
  chat_records w' =
    match session_factory (plugin w), unit_of_work io with
    | Some _, None => chat_records w ++ [record_of io u n m g b]
    | _, _ => chat_records w
    end.
Proof.
  rewrite save_chat_record_cases.
  destruct (session_factory (plugin w)), (unit_of_work io); now repeat split.
Qed.

(** The group message handler returns normally, leaves the plugin's fields
    alone, and adds to the table the record of a recordable event when the
    store is ready and the commit goes through, and nothing otherwise. *)
Lemma group_message_effect (io : backend) (event : GroupMessageReceived.t)
    (w : world) :
  let res := on_group_message_received io event w in
  fst res = Ok tt /\ plugin (snd res) = plugin w /\
  disposed (snd res) = disposed w /\
  ((exists t, recordable (plugin w) event t /\
      chat_records (snd res) =
        match session_factory (plugin w), unit_of_work io with
        | Some _, None =>
            chat_records w ++
              [record_of io (GroupMessageReceived.sender_id event)
                 (sender_nickname event) t
                 (GroupMessageReceived.launcher_id event) false]
        | _, _ => chat_records w
        end) \/
   ((forall t, ~ recordable (plugin w) event t) /\
      chat_records (snd res) = chat_records w)).
Proof.
  destruct (group_message_cases io event w) as [(t & R & E) | (N & O & S)].
  - simpl. rewrite E.
    destruct (save_chat_record_effect io (GroupMessageReceived.sender_id event)
                (sender_nickname event) t
                (GroupMessageReceived.launcher_id event) false w)
      as (P & D & C).
    repeat split; try assumption; [apply save_chat_record_returns |].
    left. exists t. now split.
  - destruct S as (P & C & D). simpl. repeat split; try assumption.
    right. now split.
Qed.

Lemma bot_response_effect (io : backend) (event : NormalMessageResponded.t)
    (w : world) :
  let res := on_normal_message_responded io event w in
  fst res = Ok tt /\ plugin (snd res) = plugin w /\
  disposed (snd res) = disposed w /\
  ((bot_recordable (plugin w) event /\
      chat_records (snd res) =
        match session_factory (plugin w), unit_of_work io with
        | Some _, None =>
            chat_records w ++
              [record_of io (bot_user_id event) (PyStr (lit "LangBot"))
                 (full_response event)
                 (NormalMessageResponded.launcher_id event) true]
        | _, _ => chat_records w
        end) \/
   (~ bot_recordable (plugin w) event /\
      chat_records (snd res) = chat_records w)).
Proof.
  destruct (bot_response_cases io event w) as [(R & E) | (N & O & S)].
  - simpl. rewrite E.
    destruct (save_chat_record_effect io (bot_user_id event)
                (PyStr (lit "LangBot")) (full_response event)
                (NormalMessageResponded.launcher_id event) true w)
      as (P & D & C).
    repeat split; try assumption; [apply save_chat_record_returns |].
    left. now split.
  - destruct S as (P & C & D). simpl. repeat split; try assumption.
    right. now split.
Qed.

(** The three ways [initialize] ends. *)
Lemma initialize_cases (config : option Config) (db : driver) (w : world) :
  let loaded := load_config config (plugin w) in
  let e := create_async_engine (database_url loaded) in
  let opened := set_session_factory (sessionmaker e) (set_engine e loaded) in
  initialize config db w =
    match engine_creation db, schema_creation db with
    | Some x, _ =>
        (Raise x,
         add_log ERROR (InitializeFailed x)
           (add_log ERROR (DatabaseInitFailed x) (with_plugin loaded w)))
    | None, Some x =>
        (Raise x,
         add_log ERROR (InitializeFailed x)
           (add_log ERROR (DatabaseInitFailed x) (with_plugin opened w)))
    | None, None =>
        (Ok tt,
         add_log INFO (ShowIncludeBotMessages (include_bot_messages opened))
           (add_log INFO (ShowGroupBlacklist (group_blacklist opened))
              (add_log INFO (ShowGroupWhitelist (group_whitelist opened))
                 (add_log INFO (PluginInitialized (database_name opened))
                    (add_log INFO TablesCreated (with_plugin opened w))))))
    end.
Proof.
  unfold initialize, _init_database, try_except, bind, get_self, set_self,
    outcome, logger, raise, ret.
  destruct (engine_creation db), (schema_creation db); reflexivity.
Qed.

(** The two ways [destroy] ends, and what it does without an engine. *)
Lemma destroy_cases (o : option exn) (w : world) :
  destroy o w =
    match engine (plugin w), o with
    | None, _ => (Ok tt, w)
    | Some e, None => (Ok tt, add_log INFO ConnectionClosed (add_disposed e w))
    | Some e, Some x => (Ok tt, add_log ERROR (CleanupError x) w)
    end.
Proof.
  unfold destroy, try_except, bind, get_self, dispose, logger, ret.
  destruct (engine (plugin w)), o; reflexivity.
Qed.

(** ** The log is written, never read *)

Section LogBlind.
Context {A B : Type}.

Lemma log_blind_ret (a : A) : log_blind (ret a).
Proof. intros w1 w2 S. now split. Qed.

Lemma log_blind_raise (e : exn) : log_blind (@raise A e).
Proof. intros w1 w2 S. now split. Qed.

Lemma log_blind_lift (r : result A) : log_blind (lift r).
Proof. intros w1 w2 S. now split. Qed.

Lemma log_blind_bind (m : M A) (k : A -> M B) :
  log_blind m -> (forall a, log_blind (k a)) -> log_blind (bind m k).
Proof.
  intros Hm Hk w1 w2 S. unfold bind.
  destruct (Hm w1 w2 S) as (R & S').
  destruct (m w1) as [[a1 | e1] w1'], (m w2) as [[a2 | e2] w2'];
    simpl in *; try discriminate.
  - inversion R; subst. now apply Hk.
  - inversion R; subst. now split.
Qed.

Lemma log_blind_try_except (body : M A) (handler : exn -> M A) :
  log_blind body -> (forall e, log_blind (handler e)) ->
  log_blind (try_except body handler).
Proof.
  intros Hb Hh w1 w2 S. unfold try_except.
  destruct (Hb w1 w2 S) as (R & S').
  destruct (body w1) as [[a1 | e1] w1'], (body w2) as [[a2 | e2] w2'];
    simpl in *; try discriminate.
  - now split.
  - inversion R; subst. now apply Hh.
Qed.
End LogBlind.

Lemma log_blind_get_self : log_blind get_self.
Proof. intros w1 w2 (P & C & D). simpl. now rewrite P. Qed.

Lemma log_blind_set_self (p : ChatLoggerPlugin) : log_blind (set_self p).
Proof. intros w1 w2 (P & C & D). now repeat split. Qed.

Lemma log_blind_logger (lvl : level) (m : log_msg) : log_blind (logger lvl m).
Proof. intros w1 w2 (P & C & D). now repeat split. Qed.

Lemma log_blind_commit (io : backend) (r : ChatRecord) : log_blind (commit io r).
Proof.
  intros w1 w2 (P & C & D). unfold commit.
  destruct (unit_of_work io); simpl; repeat split; try assumption.
  simpl. now rewrite C.
Qed.

Lemma log_blind_dispose (o : option exn) (e : AsyncEngine) : log_blind (dispose o e).
Proof.
  intros w1 w2 (P & C & D). unfold dispose.
  destruct o; simpl; repeat split; try assumption.
  simpl. now rewrite D.
Qed.

Lemma log_blind_outcome (o : option exn) : log_blind (outcome o).
Proof. destruct o; [apply log_blind_raise | apply log_blind_ret]. Qed.

Create HintDb blind.
#[local] Hint Resolve log_blind_ret log_blind_raise log_blind_lift
  log_blind_get_self log_blind_set_self log_blind_logger log_blind_commit
  log_blind_dispose log_blind_outcome : blind.

(** Take a computation apart along [bind], [try_except] and the case
    distinctions of the source. *)
Ltac blind :=
  repeat first
    [ solve [auto with blind]
    | apply log_blind_bind; [| intro]
    | apply log_blind_try_except; [| intro]
    | match goal with
      | |- log_blind (if ?b then _ else _) => destruct b
      | |- log_blind (match ?x with _ => _ end) => destruct x
      end ].

Lemma log_blind_save (io : backend) (u n : pyval) (m : pystr) (g : pyval) (b : bool) :
  log_blind (_save_chat_record io u n m g b).
Proof. unfold _save_chat_record. blind. Qed.

Lemma log_blind_perform (c : call) : log_blind (perform c).
Proof.
  destruct c as [config db | io event | io event | o]; simpl.
  - unfold initialize, _init_database. blind.
  - unfold on_group_message_received. blind; apply log_blind_save.
  - unfold on_normal_message_responded. blind; apply log_blind_save.
  - unfold destroy. blind.
Qed.

Lemma run_same_store (cs : list call) : forall w1 w2,
  same_store w1 w2 -> same_store (run cs w1) (run cs w2).
Proof.
  induction cs as [|c cs IH]; intros w1 w2 S; simpl; [exact S |].
  apply IH. now apply log_blind_perform.
Qed.

(** Neither handler, nor [destroy], ever raises. *)
Lemma handlers_return (c : call) (w : world) :
  match c with Initialize _ _ => True | _ => fst (perform c w) = Ok tt end.
Proof.
  destruct c as [config db | io event | io event | o]; simpl; [exact I | | |].
  - apply group_message_effect.
  - apply bot_response_effect.
  - rewrite destroy_cases. destruct (engine (plugin w)), o; reflexivity.
Qed.

(** ** The records the handlers persist *)

Lemma opened_ready : session_factory (plugin opened) <> None.
Proof. discriminate. Qed.

(** C2. With the store ready and the commit going through, the group
    message handler adds exactly one record if and only if the group passes
    the filter and the extracted text is neither empty nor white space
    only; the record has the sender's id and the launcher's id as strings,
    the sender's display name (the event's [sender_name] when it has one),
    the extracted text, and [is_bot_message] false.  Otherwise the table is
    as it was. *)
Theorem group_message_recorded (io : backend) (event : GroupMessageReceived.t)
    (w : world) :
  session_factory (plugin w) <> None ->
  unit_of_work io = None ->
  let w' := snd (on_group_message_received io event w) in
  ((exists r, chat_records w' = chat_records w ++ [r]) <->
   (exists t, recordable (plugin w) event t)) /\
  (forall t, recordable (plugin w) event t ->
     chat_records w' = chat_records w ++
       [{| user_id := py_str (GroupMessageReceived.sender_id event);
           nickname := sender_nickname event;
           message := t;
           timestamp := utcnow io;
           group_id := py_str (GroupMessageReceived.launcher_id event);
           is_bot_message := false |}]) /\
  ((forall t, ~ recordable (plugin w) event t) -> chat_records w' = chat_records w) /\
  (forall name, GroupMessageReceived.sender_name event = Some name ->
     sender_nickname event = name) /\
  (forall message_event sender,
     GroupMessageReceived.sender_name event = None ->
     py_getattr (GroupMessageReceived.query event) "message_event" =
       Some message_event ->
     py_getattr message_event "sender" = Some sender ->
     (forall name, py_getattr sender "nickname" = Some name ->
        sender_nickname event = name) /\
     (forall card, py_getattr sender "nickname" = None ->
        py_getattr sender "card" = Some card ->
        sender_nickname event = card)).
Proof.
  intros Hf Hc w'.
  destruct (group_message_effect io event w) as (_ & _ & _ & H).
  fold w' in H. rewrite Hc in H.
  destruct (session_factory (plugin w)) as [f |]; [clear Hf | congruence].
  split; [| split; [| split; [| split]]].
  - split.
    + intros (r & E). destruct H as [(t & R & _) | (_ & C)]; [eauto |].
      rewrite C in E. now apply app_one_neq in E.
    + intros (t & R). destruct H as [(t' & R' & C) | (N & _)]; [eauto |].
      now apply N in R.
  - intros t R. destruct H as [(t' & R' & C) | (N & _)].
    + now rewrite (recordable_unique R R').
    + now apply N in R.
  - intros N. destruct H as [(t & R & _) | (_ & C)]; [now apply N in R | exact C].
  - intros name E. unfold sender_nickname. now rewrite E.
  - intros message_event sender En Em Es. unfold sender_nickname.
    rewrite En, Em, Es. split.
    + intros name E. now rewrite E.
    + intros card E E'. now rewrite E, E'.
Qed.

Lemma alice_hello_recordable :
  recordable (plugin opened) (alice (PyStr (lit "hello"))) (lit "hello").
Proof.
  repeat split. apply not_whitespace_only. discriminate.
Qed.

Lemma group_message_recorded_witness :
  chat_records (snd (on_group_message_received accepting
                       (alice (PyStr (lit "hello"))) opened)) =
    [{| user_id := lit "u1"; nickname := PyStr (lit "Alice");
        message := lit "hello"; timestamp := 1700000000;
        group_id := lit "g1"; is_bot_message := false |}].
Proof.
  exact (proj1 (proj2 (@group_message_recorded accepting
                         (alice (PyStr (lit "hello"))) opened
                         opened_ready eq_refl))
           (lit "hello") alice_hello_recordable).
Defined.

(** Scenario 2 of the spec: the same event under the whitelist [g2]. *)
Example group_message_not_whitelisted :
  chat_records
    (run [Initialize
            (Some {| cfg_database_url := None; cfg_database_name := None;
                     cfg_include_bot_messages := None;
                     cfg_group_whitelist := Some [lit "g2"];
                     cfg_group_blacklist := None |}) working;
          GroupMessage accepting (alice (PyStr (lit "hello")))] fresh) = [].
Proof. reflexivity. Qed.

(** Scenario 5 of the spec: a text of white space only. *)
Example group_message_blank :
  chat_records
    (run [GroupMessage accepting (alice (PyStr (lit "   ")))] opened) = [].
Proof. reflexivity. Qed.

(** C3. With the store ready and the commit going through, the bot
    response handler adds exactly one record if and only if bot messages
    are included, the launcher type is [group], the group passes the filter
    and the prefix followed by the response text is neither empty nor white
    space only; the record's message is the prefix followed by the response
    text, its nickname is [LangBot], [is_bot_message] is true, and its user
    id is the adapter's bot account id when the query has one, else [bot].
    A response whose launcher type is not [group] adds nothing. *)
Theorem bot_response_recorded (io : backend) (event : NormalMessageResponded.t)
    (w : world) :
  session_factory (plugin w) <> None ->
  unit_of_work io = None ->
  let w' := snd (on_normal_message_responded io event w) in
  ((exists r, chat_records w' = chat_records w ++ [r]) <->
   bot_recordable (plugin w) event) /\
  (bot_recordable (plugin w) event ->
     chat_records w' = chat_records w ++
       [{| user_id := py_str (bot_user_id event);
           nickname := PyStr (lit "LangBot");
           message := get_or (NormalMessageResponded.prefix event) [] ++
                      get_or (NormalMessageResponded.response_text event) [];
           timestamp := utcnow io;
           group_id := py_str (NormalMessageResponded.launcher_id event);
           is_bot_message := true |}]) /\
  (~ bot_recordable (plugin w) event -> chat_records w' = chat_records w) /\
  (NormalMessageResponded.launcher_type event <> PyStr (lit "group") ->
     chat_records w' = chat_records w) /\
  (forall adapter id,
     py_getattr (NormalMessageResponded.query event) "adapter" = Some adapter ->
     py_getattr adapter "bot_account_id" = Some id ->
     bot_user_id event = id) /\
  (py_getattr (NormalMessageResponded.query event) "adapter" = None \/
   (exists adapter,
      py_getattr (NormalMessageResponded.query event) "adapter" = Some adapter /\
      py_getattr adapter "bot_account_id" = None) ->
   bot_user_id event = PyStr (lit "bot")).
Proof.
  intros Hf Hc w'.
  destruct (bot_response_effect io event w) as (_ & _ & _ & H).
  fold w' in H. rewrite Hc in H.
  destruct (session_factory (plugin w)) as [f |]; [clear Hf | congruence].
  rewrite <- full_response_concat.
  split; [| split; [| split; [| split; [| split]]]].
  - split.
    + intros (r & E). destruct H as [(R & _) | (_ & C)]; [exact R |].
      rewrite C in E. now apply app_one_neq in E.
    + intros R. destruct H as [(_ & C) | (N & _)]; [eauto | tauto].
  - intros R. destruct H as [(_ & C) | (N & _)]; [exact C | tauto].
  - intros N. destruct H as [(R & _) | (_ & C)]; [tauto | exact C].
  - intros N. destruct H as [((_ & G & _) & _) | (_ & C)]; [tauto | exact C].
  - intros adapter id Ea Ei. unfold bot_user_id. now rewrite Ea, Ei.
  - intros [Ea | (adapter & Ea & Ei)]; unfold bot_user_id; rewrite Ea;
      [| rewrite Ei]; reflexivity.
Qed.

Lemma reply_recordable (query : pyval) :
  bot_recordable (plugin opened) (reply (lit "group") query).
Proof.
  repeat split. apply not_whitespace_only. discriminate.
Qed.

Lemma bot_response_recorded_witness :
  chat_records (snd (on_normal_message_responded accepting
                       (reply (lit "group") adapter_query) opened)) =
    [{| user_id := lit "10001"; nickname := PyStr (lit "LangBot");
        message := lit "[bot] hi"; timestamp := 1700000000;
        group_id := lit "g1"; is_bot_message := true |}].
Proof.
  exact (proj1 (proj2 (@bot_response_recorded accepting
                         (reply (lit "group") adapter_query) opened
                         opened_ready eq_refl))
           (reply_recordable adapter_query)).
Defined.

(** Scenario 3 of the spec with no adapter: the user id is [bot]. *)
Example bot_response_sentinel :
  chat_records (run [BotResponse accepting (reply (lit "group") PyNone)] opened) =
    [{| user_id := lit "bot"; nickname := PyStr (lit "LangBot");
        message := lit "[bot] hi"; timestamp := 1700000000;
        group_id := lit "g1"; is_bot_message := true |}].
Proof. reflexivity. Qed.

(** Scenario 4 of the spec: a response to a private conversation. *)
Example bot_response_private :
  chat_records (run [BotResponse accepting (reply (lit "person") PyNone)] opened) = [].
Proof. reflexivity. Qed.

(** C10. The stored text is the extracted text itself, white space at its
    ends included: whenever the group message handler adds a record, the
    record's message is the text the message chain yields, and whenever the
    bot response handler adds one, its message is the prefix followed by
    the response text.  [strip] is applied to decide whether to save, and
    to nothing else. *)
Theorem stored_text_not_trimmed (io : backend) (w : world) :
  (forall event r,
     chat_records (snd (on_group_message_received io event w)) =
       chat_records w ++ [r] ->
     extract_message_text (GroupMessageReceived.message_chain event) =
       Ok (PyStr (message r))) /\
  (forall event r,
     chat_records (snd (on_normal_message_responded io event w)) =
       chat_records w ++ [r] ->
     message r = get_or (NormalMessageResponded.prefix event) [] ++
                 get_or (NormalMessageResponded.response_text event) []) /\
  (forall event t,
     session_factory (plugin w) <> None -> unit_of_work io = None ->
     recordable (plugin w) event t ->
     exists r, chat_records (snd (on_group_message_received io event w)) =
                 chat_records w ++ [r] /\ message r = t) /\
  (forall event,
     session_factory (plugin w) <> None -> unit_of_work io = None ->
     bot_recordable (plugin w) event ->
     exists r, chat_records (snd (on_normal_message_responded io event w)) =
                 chat_records w ++ [r] /\
               message r = get_or (NormalMessageResponded.prefix event) [] ++
                           get_or (NormalMessageResponded.response_text event) []).
Proof.
  split; [| split; [| split]].
  - intros event r E.
    destruct (group_message_effect io event w) as (_ & _ & _ & [(t & R & C) | (_ & C)]).
    + rewrite C in E.
      destruct (session_factory (plugin w)), (unit_of_work io);
        try (now apply app_one_neq in E).
      apply app_inv_head in E. inversion E; subst. simpl. apply R.
    + rewrite C in E. now apply app_one_neq in E.
  - intros event r E. rewrite <- full_response_concat.
    destruct (bot_response_effect io event w) as (_ & _ & _ & [(R & C) | (_ & C)]).
    + rewrite C in E.
      destruct (session_factory (plugin w)), (unit_of_work io);
        try (now apply app_one_neq in E).
      apply app_inv_head in E. inversion E; subst. reflexivity.
    + rewrite C in E. now apply app_one_neq in E.
  - intros event t Hf Hc R.
    destruct (group_message_effect io event w) as (_ & _ & _ & [(t' & R' & C) | (N & _)]).
    + rewrite Hc in C.
      destruct (session_factory (plugin w)); [| congruence].
      rewrite (recordable_unique R R'). eexists. split; [exact C | reflexivity].
    + now apply N in R.
  - intros event Hf Hc R. rewrite <- full_response_concat.
    destruct (bot_response_effect io event w) as (_ & _ & _ & [(_ & C) | (N & _)]).
    + rewrite Hc in C.
      destruct (session_factory (plugin w)); [| congruence].
      eexists. split; [exact C | reflexivity].
    + now apply N in R.
Qed.

Lemma padded_recordable : recordable (plugin opened) (alice (PyStr padded)) padded.
Proof.
  repeat split. apply not_whitespace_only. discriminate.
Qed.

Lemma stored_text_not_trimmed_witness :
  exists r,
    chat_records (snd (on_group_message_received accepting
                         (alice (PyStr padded)) opened)) = [r] /\
    message r = [32; 32; 104; 105; 32; 10]%N.
Proof.
  exact (proj1 (proj2 (proj2 (stored_text_not_trimmed accepting opened)))
           (alice (PyStr padded)) padded opened_ready eq_refl padded_recordable).
Defined.

(** ** Failing appends *)

Lemma failing_save_log (io : backend) (u n : pyval) (m : pystr) (g : pyval)
    (b : bool) (w : world) (c : call) :
  (exists event, c = GroupMessage io event) \/
  (exists event, c = BotResponse io event) ->
  append_fails w c ->
  exists entry,
    log (snd (_save_chat_record io u n m g b w)) = log w ++ [entry] /\
    failure_entry w c entry.
Proof.
  intros K F. rewrite save_chat_record_cases.
  assert (session_factory (plugin w) = None \/ unit_of_work io <> None) as F'
    by (destruct K as [(ev & ->) | (ev & ->)]; exact F).
  assert (forall entry,
            match session_factory (plugin w), unit_of_work io with
            | None, _ => entry = {| levelname := WARNING; msg := DatabaseNotInitialized |}
            | Some _, Some e => entry = {| levelname := ERROR; msg := SaveFailed e |}
            | Some _, None => False
            end -> failure_entry w c entry) as Fe
    by (destruct K as [(ev & ->) | (ev & ->)]; intros entry H; exact H).
  destruct (session_factory (plugin w)) as [f |] eqn:Sf.
  - destruct (unit_of_work io) as [e |] eqn:U.
    + eexists. split; [reflexivity |]. now apply Fe.
    + destruct F' as [F' | F']; congruence.
  - destruct (unit_of_work io); eexists; (split; [reflexivity |]); now apply Fe.
Qed.

(** C7. An event whose append fails, because the unit of work raises or
    because the store was never made ready, is dropped: the handler
    returns normally, the plugin's fields and the table are as they were,
    the failure is in the log (an error, or the warning that the database
    is not initialized), and every later sequence of calls leaves the store
    as it would have been without the event; a later recordable event
    whose commit goes through is recorded. *)
Theorem append_failure_contained (c : call) (w : world) :
  append_fails w c ->
  fst (perform c w) = Ok tt /\
  same_store w (snd (perform c w)) /\
  (reaches_save (plugin w) c ->
     exists entry, log (snd (perform c w)) = log w ++ [entry] /\
                   failure_entry w c entry) /\
  (forall cs, same_store (run cs w) (run cs (snd (perform c w)))) /\
  (forall c', match c' with
              | Initialize _ _ => True
              | _ => fst (perform c' (snd (perform c w))) = Ok tt
              end) /\
  (forall io event t,
     session_factory (plugin w) <> None -> unit_of_work io = None ->
     recordable (plugin w) event t ->
     exists r, chat_records (snd (perform (GroupMessage io event)
                                    (snd (perform c w)))) =
               chat_records w ++ [r]).
Proof.
  intros F.
  assert (same_store w (snd (perform c w)) /\
          (reaches_save (plugin w) c ->
           exists entry, log (snd (perform c w)) = log w ++ [entry] /\
                         failure_entry w c entry)) as [S L].
  { destruct c as [config db | io event | io event | o]; simpl in F; try tauto.
    - simpl perform.
      destruct (group_message_cases io event w) as [(t & R & E) | (N & _ & S)].
      + rewrite E. split.
        * destruct (save_chat_record_effect io
                      (GroupMessageReceived.sender_id event)
                      (sender_nickname event) t
                      (GroupMessageReceived.launcher_id event) false w)
            as (P & D & C).
          repeat split; try assumption. rewrite C.
          destruct (session_factory (plugin w)), (unit_of_work io);
            try reflexivity. destruct F; congruence.
        * intros _. apply failing_save_log; [left; eauto | exact F].
      + split; [exact S |]. intros (t & R). now apply N in R.
    - simpl perform.
      destruct (bot_response_cases io event w) as [(R & E) | (N & _ & S)].
      + rewrite E. split.
        * destruct (save_chat_record_effect io (bot_user_id event)
                      (PyStr (lit "LangBot")) (full_response event)
                      (NormalMessageResponded.launcher_id event) true w)
            as (P & D & C).
          repeat split; try assumption. rewrite C.
          destruct (session_factory (plugin w)), (unit_of_work io);
            try reflexivity. destruct F; congruence.
        * intros _. apply failing_save_log; [right; eauto | exact F].
      + split; [exact S |]. intros R. now apply N in R. }
  split; [| split; [exact S | split; [exact L | split; [| split]]]].
  - pose proof (handlers_return c w) as H.
    destruct c; simpl in F; try tauto; exact H.
  - intros cs. now apply run_same_store.
  - intros c'. apply handlers_return.
  - intros io event t Hf Hc R. destruct S as (P & C & D).
    destruct (group_message_effect io event (snd (perform c w)))
      as (_ & _ & _ & [(t' & R' & E) | (N & _)]).
    + simpl perform. rewrite E, P, C, Hc.
      destruct (session_factory (plugin w)); [eauto | congruence].
    + rewrite P in N. now apply N in R.
Qed.

Lemma append_failure_contained_witness :
  fst (perform (GroupMessage refusing (alice (PyStr (lit "hello")))) opened) = Ok tt /\
  chat_records
    (run [GroupMessage refusing (alice (PyStr (lit "hello")));
          GroupMessage accepting (alice (PyStr (lit "again")))] opened) =
    [{| user_id := lit "u1"; nickname := PyStr (lit "Alice");
        message := lit "again"; timestamp := 1700000000;
        group_id := lit "g1"; is_bot_message := false |}].
Proof.
  assert (append_fails opened
            (GroupMessage refusing (alice (PyStr (lit "hello"))))) as F
    by (right; discriminate).
  destruct (append_failure_contained
              (GroupMessage refusing (alice (PyStr (lit "hello")))) opened F)
    as (R & _ & _ & S & _).
  split; [exact R |].
  destruct (S [GroupMessage accepting (alice (PyStr (lit "again")))])
    as (_ & C & _).
  exact C.
Defined.

(** An append before any initialization: a warning, and no record. *)
Example append_before_initialize :
  perform (GroupMessage accepting (alice (PyStr (lit "hello")))) fresh =
    (Ok tt, add_log WARNING DatabaseNotInitialized fresh).
Proof. reflexivity. Qed.

(** ** When the extraction raises *)

Lemma add_parts_raise_inv (parts : list pyval) : forall acc e,
  add_parts acc parts = Raise e ->
  e = TypeError /\ ~ Forall text_is_str parts.
Proof.
  intros acc e H. split.
  - revert acc H. induction parts as [|part parts IH]; intros acc H; simpl in H.
    + discriminate.
    + destruct (add_part acc part) as [acc' | e'] eqn:P; [now apply IH in H |].
      inversion H; subst. unfold add_part in P.
      destruct (py_getattr part "text") as [[] |];
        try (inversion P; reflexivity).
      destruct (py_getattr part "content") as [[] |]; destruct part;
        discriminate.
  - intros F. rewrite (add_parts_concat acc F) in H. discriminate.
Qed.

(** A chain whose sub-part has a number for text, and a chain whose
    [messages] is [None]: both have the composite shape, and the extraction
    raises on both. *)
Lemma extraction_raises :
  extract_message_text
    (PyObj (lit "MessageChain")
       [("messages"%string,
         PyList (lit "[...]")
           [PyObj (lit "Plain") [("text"%string, PyInt 5)]])]) = Raise TypeError /\
  extract_message_text
    (PyObj (lit "MessageChain") [("messages"%string, PyNone)]) = Raise TypeError.
Proof. split; reflexivity. Qed.

(** C5, amended. A payload with neither a [messages] nor a [text]
    attribute yields its string rendering (itself, for a string) and the
    extraction does not raise; the extraction leaves the world untouched.
    It raises only a [TypeError], and only on a payload with a [messages]
    attribute that is not iterable or that holds a sub-part whose text
    field is not a text; the handler then logs the error, stores nothing
    and returns normally. *)
Theorem extraction_fallback_and_failure :
  (forall v, py_getattr v "messages" = None -> py_getattr v "text" = None ->
     extract_message_text v = Ok (PyStr (py_str v))) /\
  (forall v w, lift (extract_message_text v) w = (extract_message_text v, w)) /\
  (forall v e, extract_message_text v = Raise e ->
     e = TypeError /\
     exists messages, py_getattr v "messages" = Some messages /\
       (py_iter messages = None \/
        exists parts, py_iter messages = Some parts /\
                      ~ Forall text_is_str parts)) /\
  (forall io event w e,
     _should_log_group (plugin w) (GroupMessageReceived.launcher_id event) = true ->
     extract_message_text (GroupMessageReceived.message_chain event) = Raise e ->
     on_group_message_received io event w =
       (Ok tt, add_log ERROR (GroupMessageError e) w)) /\
  (forall io event w, fst (on_group_message_received io event w) = Ok tt).
Proof.
  split; [| split; [| split; [| split]]].
  - intros v Hm Ht. unfold extract_message_text. rewrite Hm, Ht.
    destruct v; reflexivity.
  - reflexivity.
  - intros v e H. unfold extract_message_text in H.
    destruct (py_getattr v "messages") as [messages |] eqn:Hm.
    + destruct (py_iter messages) as [parts |] eqn:Hi.
      * destruct (add_parts [] parts) as [t | e'] eqn:Hp; [discriminate |].
        inversion H; subst. apply add_parts_raise_inv in Hp.
        destruct Hp as (-> & N). split; [reflexivity |].
        exists messages. split; [reflexivity |]. right. eauto.
      * inversion H; subst. split; [reflexivity |].
        exists messages. split; [reflexivity |]. now left.
    + destruct (py_getattr v "text"); [discriminate |].
      destruct v; discriminate.
  - intros io event w e F X.
    unfold on_group_message_received, try_except, bind, get_self, lift.
    now rewrite F, X.
  - intros io event w. apply group_message_effect.
Qed.

Lemma extraction_fallback_witness :
  extract_message_text (PyInt 42) = Ok (PyStr (lit "42")).
Proof.
  exact (proj1 extraction_fallback_and_failure (PyInt 42) eq_refl eq_refl).
Defined.

(** ** The stored records *)

Lemma whitespace_only_nil : whitespace_only [].
Proof. intros c []. Qed.

(** A call adds at most one row and touches no other. *)
Lemma perform_added (c : call) (w : world) :
  exists added,
    chat_records (snd (perform c w)) = chat_records w ++ added /\
    Forall message_present added /\
    (names_ids c -> Forall ids_present added).
Proof.
  assert (forall l : list ChatRecord, l = l ++ []) as Nil
    by (intros l; now rewrite app_nil_r).
  destruct c as [config db | io event | io event | o]; simpl.
  - pose proof (initialize_cases config db w) as E. simpl in E. rewrite E.
    exists []. repeat split; try constructor.
    destruct (engine_creation db), (schema_creation db); apply Nil.
  - destruct (group_message_effect io event w)
      as (_ & _ & _ & [(t & (_ & _ & N) & C) | (_ & C)]);
      rewrite C; [| exists []; repeat split; auto].
    destruct (session_factory (plugin w)), (unit_of_work io);
      try (exists []; repeat split; auto; fail).
    eexists. split; [reflexivity |]. split.
    + repeat constructor; simpl; [| exact N].
      intros ->. apply N, whitespace_only_nil.
    + intros (U & G). repeat constructor; assumption.
  - destruct (bot_response_effect io event w)
      as (_ & _ & _ & [((_ & _ & _ & N) & C) | (_ & C)]);
      rewrite C; [| exists []; repeat split; auto].
    destruct (session_factory (plugin w)), (unit_of_work io);
      try (exists []; repeat split; auto; fail).
    eexists. split; [reflexivity |]. split.
    + repeat constructor; simpl; [| exact N].
      intros E. apply N. rewrite E. apply whitespace_only_nil.
    + intros (U & G). repeat constructor; assumption.
  - rewrite destroy_cases. exists []. repeat split; try constructor.
    destruct (engine (plugin w)), o; apply Nil.
Qed.

(** An event whose sender id and launcher id are the empty string is
    stored, with an empty [user_id] and an empty [group_id]. *)
Lemma empty_ids_stored :
  chat_records (run [GroupMessage accepting anonymous] opened) =
    [{| user_id := []; nickname := PyNone; message := lit "hello";
        timestamp := 1700000000; group_id := []; is_bot_message := false |}].
Proof. reflexivity. Qed.

(** C6, amended. Over every sequence of calls, every stored record keeps a
    message that is neither empty nor white space only.  Its [user_id] and
    [group_id] are the string forms of the ids the event carries; they are
    non-empty in every stored record when they are so for the events of
    the sequence, as they are for integer ids. *)
Theorem stored_records_invariant (cs : list call) (w : world) :
  Forall message_present (chat_records w) ->
  Forall message_present (chat_records (run cs w)) /\
  (Forall names_ids cs -> Forall ids_present (chat_records w) ->
   Forall ids_present (chat_records (run cs w))) /\
  (forall z, py_str (PyInt z) <> []).
Proof.
  intros H. split; [| split; [| apply py_str_int_nonempty]].
  - revert w H. induction cs as [|c cs IH]; intros w H; simpl; [exact H |].
    apply IH. destruct (perform_added c w) as (added & -> & M & _).
    apply Forall_app. now split.
  - clear H. revert w. induction cs as [|c cs IH]; intros w N I; simpl; [exact I |].
    inversion N as [|? ? Nc Ncs]; subst.
    apply IH; [exact Ncs |].
    destruct (perform_added c w) as (added & -> & _ & A).
    apply Forall_app. split; [exact I | now apply A].
Qed.

Lemma stored_records_invariant_witness :
  Forall message_present
    (chat_records
       (run [Initialize None working;
             GroupMessage accepting (alice (PyStr padded));
             BotResponse accepting (reply (lit "group") adapter_query);
             GroupMessage accepting anonymous;
             Destroy None] fresh)).
Proof.
  exact (proj1 (@stored_records_invariant
                  [Initialize None working;
                   GroupMessage accepting (alice (PyStr padded));
                   BotResponse accepting (reply (lit "group") adapter_query);
                   GroupMessage accepting anonymous;
                   Destroy None] fresh (Forall_nil _))).
Defined.

(** ** Lifecycle *)

(** An initialization that fails while creating the schema raises, and
    still leaves the session factory set: the next group message is
    stored. *)
Lemma usable_after_schema_failure :
  fst (initialize None no_schema fresh) =
    Raise (BackendError (lit "connection timed out")) /\
  session_factory (plugin (snd (initialize None no_schema fresh))) =
    Some (sessionmaker
            (create_async_engine (lit "sqlite+aiosqlite:///./chat_logs.db"))) /\
  chat_records
    (run [Initialize None no_schema;
          GroupMessage accepting (alice (PyStr (lit "hello")))] fresh) =
    [{| user_id := lit "u1"; nickname := PyStr (lit "Alice");
        message := lit "hello"; timestamp := 1700000000;
        group_id := lit "g1"; is_bot_message := false |}].
Proof. repeat split. Qed.

(** C8, amended. A failure of [initialize], in creating the engine or in
    creating the schema, is logged and raised to the caller, never
    swallowed, and the table is untouched.  When it is the creation of the
    engine that fails, the engine and the session factory stay as they
    were, so that a plugin that had none stores nothing afterwards.
    [initialize] is the only call that raises: the handlers and [destroy]
    always return normally. *)
Theorem initialize_failure_propagates (config : option Config) (db : driver)
    (w : world) (x : exn) :
  init_fails db x ->
  let res := initialize config db w in
  fst res = Raise x /\
  log (snd res) =
    log w ++ [{| levelname := ERROR; msg := DatabaseInitFailed x |};
              {| levelname := ERROR; msg := InitializeFailed x |}] /\
  chat_records (snd res) = chat_records w /\
  (engine_creation db = Some x ->
     engine (plugin (snd res)) = engine (plugin w) /\
     session_factory (plugin (snd res)) = session_factory (plugin w) /\
     (session_factory (plugin w) = None ->
      forall c, match c with
                | Initialize _ _ => True
                | _ => chat_records (snd (perform c (snd res))) = chat_records w
                end)) /\
  (forall c w0, match c with
                | Initialize _ _ => True
                | _ => fst (perform c w0) = Ok tt
                end).
Proof.
  intros F res. pose proof (initialize_cases config db w) as E.
  cbv zeta in E. fold res in E.
  split; [| split; [| split; [| split]]].
  - rewrite E. destruct F as [-> | (-> & ->)]; reflexivity.
  - rewrite E. destruct F as [-> | (-> & ->)]; simpl;
      now rewrite <- app_assoc.
  - rewrite E. destruct F as [-> | (-> & ->)]; reflexivity.
  - intros Fe.
    assert (plugin (snd res) = load_config config (plugin w) /\
            chat_records (snd res) = chat_records w) as (P & C)
      by (rewrite E, Fe; now split).
    rewrite P. repeat split.
    intros Sf c.
    assert (session_factory (plugin (snd res)) = None) as Sf'
      by (rewrite P; exact Sf).
    destruct c as [config' db' | io event | io event | o]; simpl; [exact I | | |].
    + destruct (group_message_effect io event (snd res))
        as (_ & _ & _ & [(t & _ & C') | (_ & C')]); rewrite C', ?Sf'; exact C.
    + destruct (bot_response_effect io event (snd res))
        as (_ & _ & _ & [(_ & C') | (_ & C')]); rewrite C', ?Sf'; exact C.
    + rewrite destroy_cases.
      destruct (engine (plugin (snd res))), o; exact C.
  - intros c w0. apply handlers_return.
Qed.

Lemma initialize_failure_propagates_witness :
  fst (initialize None no_engine fresh) = Raise (BackendError (lit "no such driver")) /\
  session_factory (plugin (snd (initialize None no_engine fresh))) = None.
Proof.
  destruct (@initialize_failure_propagates None no_engine fresh
              (BackendError (lit "no such driver")) (or_introl eq_refl))
    as (R & _ & _ & S & _).
  split; [exact R |]. now destruct (S eq_refl) as (_ & Sf & _).
Defined.

(** A successful initialization makes the store ready. *)
Lemma initialize_succeeds (config : option Config) (w : world) :
  fst (initialize config working w) = Ok tt /\
  session_factory (plugin (snd (initialize config working w))) <> None.
Proof.
  pose proof (initialize_cases config working w) as E. simpl in E.
  rewrite E. simpl. split; [reflexivity | discriminate].
Qed.

(** Two calls of [destroy] after a successful initialization dispose of
    the engine twice, and a call after an initialization that failed in
    creating the schema disposes of the engine it left. *)
Lemma destroy_twice_disposes_twice :
  disposed (run [Initialize None working; Destroy None; Destroy None] fresh) =
    [default_engine; default_engine] /\
  disposed (run [Initialize None no_schema; Destroy None] fresh) =
    [default_engine].
Proof. split; reflexivity. Qed.

(** C9, amended. [destroy] never raises and changes neither the plugin's
    fields nor the table, so it can be called again.  Without an engine
    (before any initialization, or after one that failed before creating
    the engine) it does nothing at all.  With an engine, every call whose
    [dispose()] goes through disposes of that engine once more: the plugin
    does not clear the field. *)
Theorem destroy_safe (o : option exn) (w : world) :
  let res := destroy o w in
  fst res = Ok tt /\
  plugin (snd res) = plugin w /\
  chat_records (snd res) = chat_records w /\
  (engine (plugin w) = None -> snd res = w) /\
  (forall e, engine (plugin w) = Some e -> o = None ->
     disposed (snd res) = disposed w ++ [e]) /\
  (forall e, engine (plugin w) = Some e -> o <> None ->
     disposed (snd res) = disposed w) /\
  (forall o', fst (destroy o' (snd res)) = Ok tt) /\
  (forall o' config db x,
     engine (plugin w) = None -> engine_creation db = Some x ->
     snd (destroy o' (snd (initialize config db w))) =
       snd (initialize config db w)).
Proof.
  intros res. unfold res. rewrite destroy_cases.
  split; [| split; [| split; [| split; [| split; [| split; [| split]]]]]].
  - destruct (engine (plugin w)), o; reflexivity.
  - destruct (engine (plugin w)), o; reflexivity.
  - destruct (engine (plugin w)), o; reflexivity.
  - intros ->. reflexivity.
  - intros e -> ->. reflexivity.
  - intros e -> N. destruct o; [reflexivity | congruence].
  - intros o'. rewrite destroy_cases.
    destruct (engine (plugin w)), o; simpl;
      try (destruct o'; reflexivity);
      destruct (engine (plugin w)), o'; reflexivity.
  - intros o' config db x N Fe. rewrite destroy_cases.
    pose proof (initialize_cases config db w) as E. cbv zeta in E.
    rewrite E, Fe. simpl. now rewrite N.
Qed.

Lemma destroy_safe_witness :
  destroy None fresh = (Ok tt, fresh) /\
  disposed (snd (destroy None opened)) = [default_engine].
Proof.
  destruct (destroy_safe None fresh) as (R & _ & _ & S & _).
  destruct (destroy_safe None opened) as (_ & _ & _ & _ & D & _).
  split.
  - rewrite (surjective_pairing (destroy None fresh)), R, (S eq_refl).
    reflexivity.
  - exact (D default_engine eq_refl eq_refl).
Defined.

(** * Further properties *)

(** ** The filter *)

Lemma should_log_group_false (self : ChatLoggerPlugin) (g : pyval) :
  _should_log_group self g = false <->
  ~ ((group_whitelist self = [] \/ In (py_str g) (group_whitelist self)) /\
     ~ In (py_str g) (group_blacklist self)).
Proof.
  rewrite <- should_log_group_true.
  destruct (_should_log_group self g); split; congruence.
Qed.

Lemma bool_eq_iff (a b : bool) : (a = true <-> b = true) -> a = b.
Proof. destruct a, b; intros [H1 H2]; auto; symmetry; auto. Qed.

(** X1. The filter reads the two lists as sets and the group id through
    its string form: two configurations whose whitelists have the same
    members and whose blacklists have the same members decide alike, order
    and repetitions playing no part, and two ids with the same string form
    (the number 42 and the string 42) are decided alike. *)
Theorem filter_reads_sets (self self' : ChatLoggerPlugin) (g g' : pyval) :
  py_str g = py_str g' ->
  (forall x, In x (group_whitelist self) <-> In x (group_whitelist self')) ->
  (forall x, In x (group_blacklist self) <-> In x (group_blacklist self')) ->
  _should_log_group self g = _should_log_group self' g'.
Proof.
  intros E W B. apply bool_eq_iff.
  rewrite !should_log_group_true, <- E, <- W, <- B.
  assert (group_whitelist self = [] <-> group_whitelist self' = []) as N.
  { split; intros H.
    - destruct (group_whitelist self') as [|x l]; [reflexivity |].
      exfalso. rewrite H in W. apply (W x). now left.
    - destruct (group_whitelist self) as [|x l]; [reflexivity |].
      exfalso. rewrite H in W. apply (W x). now left. }
  tauto.
Qed.

Lemma filter_reads_sets_witness :
  _should_log_group (with_lists [lit "42"; lit "7"; lit "42"] [lit "9"]) (PyInt 42) =
  _should_log_group (with_lists [lit "7"; lit "42"] [lit "9"; lit "9"])
    (PyStr (lit "42")).
Proof.
  apply filter_reads_sets; [reflexivity | |]; intros x; simpl; tauto.
Defined.

(** X2. Growing the blacklist never makes a group eligible, and growing a
    whitelist that is not empty never makes an eligible group ineligible. *)
Theorem filter_monotone (self self' : ChatLoggerPlugin) (g : pyval) :
  (group_whitelist self' = group_whitelist self ->
   incl (group_blacklist self) (group_blacklist self') ->
   _should_log_group self' g = true -> _should_log_group self g = true) /\
  (group_blacklist self' = group_blacklist self ->
   group_whitelist self <> [] ->
   incl (group_whitelist self) (group_whitelist self') ->
   _should_log_group self g = true -> _should_log_group self' g = true).
Proof.
  split.
  - intros W B. rewrite !should_log_group_true, W.
    intros (H & N). split; [exact H |]. intros I. apply N. now apply B.
  - intros B N W. rewrite !should_log_group_true, B.
    intros ([H | H] & K); [contradiction |].
    split; [right; now apply W | exact K].
Qed.

Lemma filter_monotone_witness :
  _should_log_group (with_lists [] [lit "g1"]) (PyStr (lit "g3")) = true.
Proof.
  apply (proj1 (filter_monotone (with_lists [] [lit "g1"])
                  (with_lists [] [lit "g1"; lit "g2"]) (PyStr (lit "g3"))));
    [reflexivity | | reflexivity].
  intros x [<- | []]. now left.
Defined.

(** X3. Under a whitelist of one id and an empty blacklist, a group is
    eligible exactly when the string form of its id is that id. *)
Theorem filter_single_whitelist (self : ChatLoggerPlugin) (a : pystr) (g : pyval) :
  group_whitelist self = [a] ->
  group_blacklist self = [] ->
  (_should_log_group self g = true <-> py_str g = a).
Proof.
  intros W B. rewrite should_log_group_true, W, B. simpl. split.
  - intros ([H | [H | []]] & _); [discriminate | now symmetry].
  - intros <-. split; [right; now left | tauto].
Qed.

Lemma filter_single_whitelist_witness :
  _should_log_group (with_lists [lit "1001"] []) (PyInt 1001) = true.
Proof.
  apply (proj2 (@filter_single_whitelist (with_lists [lit "1001"] [])
                  (lit "1001") (PyInt 1001) eq_refl eq_refl)).
  reflexivity.
Defined.

(** ** Events that leave no trace *)




(** ** Shapes of the message chain *)

Lemma add_parts_app (parts1 : list pyval) : forall parts2 acc t,
  add_parts acc parts1 = Ok t ->
  add_parts acc (parts1 ++ parts2) = add_parts t parts2.
Proof.
  induction parts1 as [|p parts1 IH]; intros parts2 acc t H; simpl in *.
  - now inversion H.
  - destruct (add_part acc p) as [acc' | e]; [now apply IH | discriminate].
Qed.

(** The text added to the accumulator does not depend on the accumulator. *)
Lemma add_parts_shift (parts : list pyval) : forall acc t,
  add_parts [] parts = Ok t -> add_parts acc parts = Ok (acc ++ t).
Proof.
  assert (forall parts acc acc' t, add_parts acc parts = Ok t ->
            exists d, t = acc ++ d /\ add_parts acc' parts = Ok (acc' ++ d)) as G.
  { induction parts0 as [|p parts0 IH]; intros acc acc' t H; simpl in *.
    - inversion H; subst. exists []. now rewrite !app_nil_r.
    - unfold add_part in *.
      destruct (py_getattr p "text") as [[| | | s | |] |]; try discriminate.
      + destruct (IH _ (acc' ++ s) _ H) as (d & -> & H').
        exists (s ++ d). rewrite H'. now rewrite !app_assoc.
      + destruct (py_getattr p "content") as [[| | | c | |] |];
          try (destruct p as [| | | s | |];
               try (destruct (IH _ acc' _ H) as (d & -> & H'); now exists d);
               destruct (IH _ (acc' ++ s) _ H) as (d & -> & H');
               exists (s ++ d); rewrite H'; now rewrite !app_assoc).
        destruct (IH _ (acc' ++ c) _ H) as (d & -> & H').
        exists (c ++ d). rewrite H'. now rewrite !app_assoc. }
  intros acc t H. destruct (G parts [] acc t H) as (d & -> & H'). exact H'.
Qed.

(** X6. Joining two lists of sub-parts joins their texts: when a chain with
    the sub-parts [parts1] yields [t1] and a chain with [parts2] yields
    [t2], the chain with [parts1] followed by [parts2] yields [t1] followed
    by [t2], with nothing put between them. *)
Theorem extract_app (parts1 parts2 : list pyval) (t1 t2 : pystr) :
  extract_message_text (chain_of parts1) = Ok (PyStr t1) ->
  extract_message_text (chain_of parts2) = Ok (PyStr t2) ->
  extract_message_text (chain_of (parts1 ++ parts2)) = Ok (PyStr (t1 ++ t2)).
Proof.
  unfold extract_message_text, chain_of. simpl. intros H1 H2.
  destruct (add_parts [] parts1) as [a |] eqn:E1; [| discriminate].
  destruct (add_parts [] parts2) as [b |] eqn:E2; [| discriminate].
  inversion H1; inversion H2; subst.
  now rewrite (@add_parts_app _ parts2 _ _ E1), (@add_parts_shift _ t1 _ E2).
Qed.

Lemma extract_app_witness :
  extract_message_text
    (chain_of ([PyStr (lit "ab"); PyInt 3] ++
               [PyObj (lit "Plain") [("text"%string, PyStr (lit "cd"))]])) =
    Ok (PyStr (lit "abcd")).
Proof.
  exact (@extract_app [PyStr (lit "ab"); PyInt 3]
           [PyObj (lit "Plain") [("text"%string, PyStr (lit "cd"))]]
           (lit "ab") (lit "cd") eq_refl eq_refl).
Defined.

Lemma add_parts_chars (s : pystr) : forall acc,
  add_parts acc (map (fun c => PyStr [c]) s) = Ok (acc ++ s).
Proof.
  induction s as [|c s IH]; intros acc; simpl.
  - now rewrite app_nil_r.
  - rewrite IH. now rewrite <- app_assoc.
Qed.

(** X7. What the message chain offers is tried in a fixed order.  A chain
    with a [messages] attribute is read through it alone: its [text]
    attribute, its other attributes and its rendering play no part.  A
    [messages] that is itself a string is read character by character and
    yields that string.  Without [messages], a [text] attribute is taken as
    it is, and a plain string is its own text. *)
Theorem extract_precedence :
  (forall shown shown' attrs attrs' messages,
     assoc "messages" attrs = Some messages ->
     assoc "messages" attrs' = Some messages ->
     extract_message_text (PyObj shown attrs) =
     extract_message_text (PyObj shown' attrs')) /\
  (forall shown attrs s,
     assoc "messages" attrs = Some (PyStr s) ->
     extract_message_text (PyObj shown attrs) = Ok (PyStr s)) /\
  (forall shown attrs text,
     assoc "messages" attrs = None -> assoc "text" attrs = Some text ->
     extract_message_text (PyObj shown attrs) = Ok text) /\
  (forall s, extract_message_text (PyStr s) = Ok (PyStr s)).
Proof.
  split; [| split; [| split]].
  - intros shown shown' attrs attrs' messages H H'.
    unfold extract_message_text. simpl. now rewrite H, H'.
  - intros shown attrs s H. unfold extract_message_text. simpl. rewrite H.
    simpl. now rewrite add_parts_chars.
  - intros shown attrs text Hm Ht. unfold extract_message_text. simpl.
    now rewrite Hm, Ht.
  - reflexivity.
Qed.

Lemma extract_precedence_witness :
  extract_message_text
    (PyObj (lit "Chain")
       [("text"%string, PyStr (lit "shadowed"));
        ("messages"%string, PyList (lit "[]") [])]) =
  extract_message_text
    (PyObj (lit "MessageChain") [("messages"%string, PyList (lit "[]") [])]).
Proof.
  exact (proj1 extract_precedence (lit "Chain") (lit "MessageChain")
           [("text"%string, PyStr (lit "shadowed"));
            ("messages"%string, PyList (lit "[]") [])]
           [("messages"%string, PyList (lit "[]") [])]
           (PyList (lit "[]") []) eq_refl eq_refl).
Defined.

(** ** Sub-parts without text, and sub-parts with a text that is none *)

Lemma no_text_contributes_nothing (part : pyval) :
  no_text part -> text_is_str part /\ contribution part = [].
Proof.
  intros (T & C & S). split.
  - intros text E. congruence.
  - unfold contribution. rewrite T.
    destruct (py_getattr part "content") as [[| | | c | |] |];
      try (destruct part; [reflexivity .. | discriminate | reflexivity | reflexivity]);
      try (destruct part; try reflexivity; discriminate).
    now specialize (C c).
Qed.

Lemma add_parts_no_text (parts : list pyval) :
  Forall no_text parts -> add_parts [] parts = Ok [].
Proof.
  intros H. rewrite add_parts_concat.
  - f_equal. simpl. induction H as [|p parts Hp _ IH]; [reflexivity |].
    simpl. rewrite IH.
    now destruct (no_text_contributes_nothing Hp) as (_ & ->).
  - induction H as [|p parts Hp _ IH]; constructor; [| exact IH].
    now apply no_text_contributes_nothing.
Qed.

(** X8. A group message whose sub-parts all lack a text (no text field, no
    content that is a string, not a string themselves), such as a message
    made of images, is dropped in silence: nothing is stored and nothing is
    logged, whatever the filter and the store. *)
Theorem textless_message_dropped (io : backend) (event : GroupMessageReceived.t)
    (messages : pyval) (parts : list pyval) (w : world) :
  py_getattr (GroupMessageReceived.message_chain event) "messages" = Some messages ->
  py_iter messages = Some parts ->
  Forall no_text parts ->
  on_group_message_received io event w = (Ok tt, w).
Proof.
  intros Hm Hi Hn.
  unfold on_group_message_received, try_except, bind, get_self, lift.
  destruct (_should_log_group (plugin w) (GroupMessageReceived.launcher_id event));
    [| reflexivity].
  simpl. unfold extract_message_text. rewrite Hm, Hi, (add_parts_no_text Hn).
  reflexivity.
Qed.

Lemma textless_message_dropped_witness :
  on_group_message_received accepting (alice (chain_of pictures)) opened =
    (Ok tt, opened).
Proof.
  apply (@textless_message_dropped accepting (alice (chain_of pictures))
           (PyList (lit "[...]") pictures) pictures opened eq_refl eq_refl).
  repeat constructor; simpl; discriminate.
Defined.

Lemma text_is_str_or_bad (part : pyval) : text_is_str part \/ bad_text part.
Proof.
  unfold text_is_str, bad_text.
  destruct (py_getattr part "text") as [text |]; [| left; discriminate].
  destruct (is_str text) eqn:S.
  - left. intros t E. now inversion E; subst.
  - right. eauto.
Qed.

Lemma bad_text_not_all (parts : list pyval) :
  Exists bad_text parts <-> ~ Forall text_is_str parts.
Proof.
  split.
  - intros E F. apply Exists_exists in E. destruct E as (p & I & t & T & S).
    rewrite Forall_forall in F. specialize (F p I t T). congruence.
  - induction parts as [|p parts IH]; intros N.
    + exfalso. apply N. constructor.
    + destruct (text_is_str_or_bad p) as [T | B]; [| now left].
      right. apply IH. intros F. apply N. now constructor.
Qed.

(** X9. One sub-part whose text field holds something other than a string
    loses the whole message, wherever it stands in the chain: the
    extraction raises a [TypeError] exactly when there is such a sub-part,
    and the handler then stores nothing, not even the text of the
    sub-parts before it, and logs the error. *)
Theorem bad_text_loses_message (io : backend) (event : GroupMessageReceived.t)
    (messages : pyval) (parts : list pyval) (w : world) :
  py_getattr (GroupMessageReceived.message_chain event) "messages" = Some messages ->
  py_iter messages = Some parts ->
  (extract_message_text (GroupMessageReceived.message_chain event) = Raise TypeError
   <-> Exists bad_text parts) /\
  (Exists bad_text parts ->
   _should_log_group (plugin w) (GroupMessageReceived.launcher_id event) = true ->
   on_group_message_received io event w =
     (Ok tt, add_log ERROR (GroupMessageError TypeError) w)).
Proof.
  intros Hm Hi.
  assert (extract_message_text (GroupMessageReceived.message_chain event) =
            Raise TypeError <-> Exists bad_text parts) as X.
  { unfold extract_message_text. rewrite Hm, Hi, bad_text_not_all. split.
    - destruct (add_parts [] parts) as [t | e] eqn:E; [discriminate |].
      intros _. now apply add_parts_raise_inv in E.
    - intros N. now rewrite (add_parts_raises [] N). }
  split; [exact X |].
  intros B F. apply X in B.
  unfold on_group_message_received, try_except, bind, get_self, lift.
  now rewrite F, B.
Qed.

Lemma bad_text_loses_message_witness :
  on_group_message_received accepting (alice (chain_of spoiled)) opened =
    (Ok tt, add_log ERROR (GroupMessageError TypeError) opened).
Proof.
  apply (proj2 (@bad_text_loses_message accepting (alice (chain_of spoiled))
                  (PyList (lit "[...]") spoiled) spoiled opened
                  eq_refl eq_refl));
    [| reflexivity].
  right. left. exists PyNone. now split.
Defined.

(** ** One call, seen from the table *)

Lemma perform_plugin (c : call) (w : world) :
  is_initialize c = false -> plugin (snd (perform c w)) = plugin w.
Proof.
  destruct c as [config db | io event | io event | o]; simpl; intros H.
  - discriminate.
  - apply group_message_effect.
  - apply bot_response_effect.
  - rewrite destroy_cases. destruct (engine (plugin w)), o; reflexivity.
Qed.

Lemma strip_cons_not_blank (t : pystr) (c : N) (r : pystr) :
  strip t = c :: r -> ~ whitespace_only t.
Proof. intros S W. apply strip_nil in W. congruence. Qed.

(** The rows a call adds are those [new_rows] computes. *)
Lemma perform_new_rows (c : call) (w : world) :
  chat_records (snd (perform c w)) = chat_records w ++ new_rows (plugin w) c.
Proof.
  destruct c as [config db | io event | io event | o]; simpl.
  - pose proof (initialize_cases config db w) as E. cbv zeta in E. rewrite E.
    rewrite app_nil_r.
    destruct (engine_creation db), (schema_creation db); reflexivity.
  - destruct (group_message_effect io event w)
      as (_ & _ & _ & [(t & (F & X & N) & C) | (N & C)]); rewrite C.
    + rewrite F, X. destruct (strip t) eqn:S.
      * exfalso. apply N. now apply strip_nil.
      * destruct (session_factory (plugin w)), (unit_of_work io);
          now rewrite ?app_nil_r.
    + destruct (_should_log_group (plugin w)
                  (GroupMessageReceived.launcher_id event)) eqn:F;
        [| now rewrite app_nil_r].
      destruct (extract_message_text (GroupMessageReceived.message_chain event))
        as [[| | | t | |] |] eqn:X; try (now rewrite app_nil_r).
      destruct (strip t) eqn:S; [now rewrite app_nil_r |].
      exfalso. apply (N t). repeat split; try assumption.
      now apply strip_cons_not_blank in S.
  - destruct (bot_response_effect io event w)
      as (_ & _ & _ & [((I & G & F & N) & C) | (N & C)]); rewrite C.
    + rewrite I, F. apply is_group_true in G. rewrite G. simpl.
      destruct (strip (full_response event)) eqn:S.
      * exfalso. apply N. now apply strip_nil.
      * destruct (session_factory (plugin w)), (unit_of_work io);
          now rewrite ?app_nil_r.
    + destruct (include_bot_messages (plugin w)) eqn:I;
        [| now rewrite app_nil_r].
      destruct (is_group (NormalMessageResponded.launcher_type event)) eqn:G;
        [| now rewrite app_nil_r].
      destruct (_should_log_group (plugin w)
                  (NormalMessageResponded.launcher_id event)) eqn:F;
        [| now rewrite app_nil_r].
      simpl. destruct (strip (full_response event)) eqn:S;
        [now rewrite app_nil_r |].
      exfalso. apply N. repeat split; try assumption.
      * now apply is_group_true.
      * now apply strip_cons_not_blank in S.
  - rewrite destroy_cases, app_nil_r.
    destruct (engine (plugin w)), o; reflexivity.
Qed.

Lemma new_rows_length (self : ChatLoggerPlugin) (c : call) :
  List.length (new_rows self c) <= if is_event c then 1 else 0.
Proof.
  destruct c as [config db | io event | io event | o]; simpl; try lia.
  - destruct (_should_log_group self _); [| simpl; lia].
    destruct (extract_message_text _) as [[| | | t | |] |]; simpl; try lia.
    destruct (strip t), (session_factory self), (unit_of_work io); simpl; lia.
  - destruct (include_bot_messages self && _ && _); [| simpl; lia].
    destruct (strip _), (session_factory self), (unit_of_work io); simpl; lia.
Qed.

Lemma new_rows_not_ready (self : ChatLoggerPlugin) (c : call) :
  session_factory self = None -> new_rows self c = [].
Proof.
  intros H. destruct c as [config db | io event | io event | o]; simpl;
    try reflexivity; rewrite H.
  - destruct (_should_log_group self _); [| reflexivity].
    destruct (extract_message_text _) as [[| | | t | |] |]; try reflexivity.
    now destruct (strip t).
  - destruct (include_bot_messages self && _ && _); [| reflexivity].
    now destruct (strip _).
Qed.

(** ** Sequences of calls *)

Lemma run_app (cs1 : list call) : forall cs2 w,
  run (cs1 ++ cs2) w = run cs2 (run cs1 w).
Proof. induction cs1 as [|c cs1 IH]; intros cs2 w; simpl; [reflexivity | apply IH]. Qed.

Lemma run_plugin (cs : list call) : forall w,
  forallb (fun c => negb (is_initialize c)) cs = true ->
  plugin (run cs w) = plugin w.
Proof.
  induction cs as [|c cs IH]; intros w H; simpl in *; [reflexivity |].
  apply andb_true_iff in H. destruct H as (Hc & Hcs).
  rewrite (IH _ Hcs). apply perform_plugin.
  now destruct (is_initialize c).
Qed.

Lemma run_new_rows (cs : list call) : forall w,
  forallb (fun c => negb (is_initialize c)) cs = true ->
  chat_records (run cs w) =
    chat_records w ++ flat_map (new_rows (plugin w)) cs.
Proof.
  induction cs as [|c cs IH]; intros w H; simpl in *; [now rewrite app_nil_r |].
  apply andb_true_iff in H. destruct H as (Hc & Hcs).
  rewrite (IH _ Hcs), perform_new_rows, perform_plugin, app_assoc;
    [reflexivity | now destruct (is_initialize c)].
Qed.

(** X10. Between two initializations the plugin's fields are read, never
    written: after any sequence of group messages, bot responses and calls
    of [destroy], the filter lists, the flag, the engine and the session
    factory are what they were. *)
Theorem fields_read_only (cs : list call) (w : world) :
  forallb (fun c => negb (is_initialize c)) cs = true ->
  plugin (run cs w) = plugin w.
Proof. apply run_plugin. Qed.

Lemma fields_read_only_witness :
  plugin (run [GroupMessage accepting (alice (PyStr (lit "hello")));
               Destroy None;
               BotResponse refusing (reply (lit "group") adapter_query)] opened) =
  plugin opened.
Proof.
  exact (@fields_read_only
           [GroupMessage accepting (alice (PyStr (lit "hello")));
            Destroy None;
            BotResponse refusing (reply (lit "group") adapter_query)]
           opened eq_refl).
Defined.

(** X11. With no initialization among them, a sequence of calls adds to
    the table the records of its events one after the other, in the order
    of the calls: the table afterwards is the table before, followed by
    the rows each call adds under the plugin's fields as they were at the
    start. *)
Theorem table_after_events (cs : list call) (w : world) :
  forallb (fun c => negb (is_initialize c)) cs = true ->
  chat_records (run cs w) =
    chat_records w ++ flat_map (new_rows (plugin w)) cs.
Proof. apply run_new_rows. Qed.

Lemma table_after_events_witness :
  map message
    (chat_records
       (run [GroupMessage accepting (alice (PyStr (lit "one")));
             GroupMessage refusing (alice (PyStr (lit "two")));
             Destroy None;
             BotResponse accepting (reply (lit "group") PyNone)] opened)) =
  [lit "one"; lit "[bot] hi"].
Proof.
  rewrite (@table_after_events
             [GroupMessage accepting (alice (PyStr (lit "one")));
              GroupMessage refusing (alice (PyStr (lit "two")));
              Destroy None;
              BotResponse accepting (reply (lit "group") PyNone)]
             opened eq_refl).
  reflexivity.
Defined.

(** X12. Events do not depend on one another: handled in another order,
    the same events leave the same records in the table, in another
    order. *)
Theorem events_commute (cs cs' : list call) (w : world) :
  forallb (fun c => negb (is_initialize c)) cs = true ->
  Permutation cs cs' ->
  Permutation (chat_records (run cs w)) (chat_records (run cs' w)).
Proof.
  intros H P.
  assert (forallb (fun c => negb (is_initialize c)) cs' = true) as H'.
  { rewrite forallb_forall in *. intros c I. apply H.
    now apply (Permutation_in c (Permutation_sym P)). }
  rewrite (run_new_rows _ w H), (run_new_rows _ w H').
  apply Permutation_app_head. now apply Permutation_flat_map.
Qed.

Lemma events_commute_witness :
  Permutation
    (chat_records
       (run [GroupMessage accepting (alice (PyStr (lit "one")));
             BotResponse accepting (reply (lit "group") PyNone)] opened))
    (chat_records
       (run [BotResponse accepting (reply (lit "group") PyNone);
             GroupMessage accepting (alice (PyStr (lit "one")))] opened)).
Proof.
  apply events_commute; [reflexivity | apply perm_swap].
Defined.

(** X13. The table only grows, and by one row per event at most: after any
    sequence of calls the rows that were there are there still, unchanged
    and in front, and the rows added are no more than the events of the
    sequence; [initialize] and [destroy] add none. *)
Theorem table_append_only (cs : list call) (w : world) :
  exists added,
    chat_records (run cs w) = chat_records w ++ added /\
    List.length added <= List.length (filter is_event cs).
Proof.
  revert w. induction cs as [|c cs IH]; intros w; simpl.
  - exists []. now rewrite app_nil_r.
  - destruct (IH (snd (perform c w))) as (added & E & L).
    exists (new_rows (plugin w) c ++ added).
    rewrite E, perform_new_rows, app_assoc. split; [reflexivity |].
    rewrite length_app. pose proof (new_rows_length (plugin w) c) as N.
    destruct (is_event c); simpl; lia.
Qed.

(** X14. Before any initialization nothing is stored: while the session
    factory is unset, no sequence of events and calls of [destroy] changes
    the table. *)
Theorem nothing_stored_before_initialize (cs : list call) (w : world) :
  session_factory (plugin w) = None ->
  forallb (fun c => negb (is_initialize c)) cs = true ->
  chat_records (run cs w) = chat_records w.
Proof.
  intros N H. rewrite (run_new_rows _ w H).
  rewrite <- (app_nil_r (chat_records w)) at 2. f_equal.
  induction cs as [|c cs IH]; simpl in *; [reflexivity |].
  apply andb_true_iff in H. destruct H as (_ & H).
  now rewrite (@new_rows_not_ready _ c N), (IH H).
Qed.

Lemma nothing_stored_before_initialize_witness :
  chat_records
    (run [GroupMessage accepting (alice (PyStr (lit "hello")));
          BotResponse accepting (reply (lit "group") adapter_query);
          Destroy None;
          GroupMessage accepting (alice (PyStr (lit "again")))] fresh) = [].
Proof.
  exact (@nothing_stored_before_initialize
           [GroupMessage accepting (alice (PyStr (lit "hello")));
            BotResponse accepting (reply (lit "group") adapter_query);
            Destroy None;
            GroupMessage accepting (alice (PyStr (lit "again")))]
           fresh eq_refl eq_refl).
Defined.

(** ** Initialization *)

Lemma initialize_plugin (config : option Config) (db : driver) (w : world) :
  let loaded := load_config config (plugin w) in
  let e := create_async_engine (database_url loaded) in
  plugin (snd (initialize config db w)) =
    match engine_creation db with
    | Some _ => loaded
    | None => set_session_factory (sessionmaker e) (set_engine e loaded)
    end.
Proof.
  pose proof (initialize_cases config db w) as E. cbv zeta in *. rewrite E.
  destruct (engine_creation db), (schema_creation db); reflexivity.
Qed.

(** X15. [initialize] reads the configuration before it touches the
    database: whether the database then fails or not, each option is
    afterwards the configured value when the configuration has one and the
    previous value otherwise.  Without a configuration the options stay,
    and initializing again with the same configuration changes none. *)
Theorem initialize_applies_config (config : option Config) (db : driver)
    (w : world) :
  let self' := plugin (snd (initialize config db w)) in
  let given := get_or config empty_config in
  settings self' =
    (get_or (cfg_database_url given) (database_url (plugin w)),
     get_or (cfg_database_name given) (database_name (plugin w)),
     get_or (cfg_include_bot_messages given) (include_bot_messages (plugin w)),
     get_or (cfg_group_whitelist given) (group_whitelist (plugin w)),
     get_or (cfg_group_blacklist given) (group_blacklist (plugin w))) /\
  (config = None -> settings self' = settings (plugin w)) /\
  (forall db',
     settings (plugin (snd (initialize config db' (snd (initialize config db w))))) =
     settings self').
Proof.
  cbv zeta. split; [| split].
  - rewrite initialize_plugin. now destruct (engine_creation db).
  - intros ->. rewrite initialize_plugin. now destruct (engine_creation db).
  - intros db'. rewrite !initialize_plugin.
    destruct (engine_creation db), (engine_creation db'), config as [c |];
      unfold settings, load_config, get_or; simpl;
      try reflexivity;
      destruct (cfg_database_url c), (cfg_database_name c),
        (cfg_include_bot_messages c), (cfg_group_whitelist c),
        (cfg_group_blacklist c); reflexivity.
Qed.

(** X16. A successful [initialize] makes the store ready: it returns
    normally, builds the engine for the database url in force (the
    configured one, else the previous one), binds the session factory to
    that engine and leaves the table alone; from then on a recordable
    group message whose commit goes through is stored. *)
Theorem initialize_makes_ready (config : option Config) (db : driver) (w : world) :
  engine_creation db = None ->
  schema_creation db = None ->
  let w' := snd (initialize config db w) in
  let e := create_async_engine
             (get_or (cfg_database_url (get_or config empty_config))
                (database_url (plugin w))) in
  fst (initialize config db w) = Ok tt /\
  engine (plugin w') = Some e /\
  session_factory (plugin w') = Some (sessionmaker e) /\
  chat_records w' = chat_records w /\
  (forall io event t,
     unit_of_work io = None -> recordable (plugin w') event t ->
     chat_records (snd (on_group_message_received io event w')) =
       chat_records w ++
         [record_of io (GroupMessageReceived.sender_id event)
            (sender_nickname event) t
            (GroupMessageReceived.launcher_id event) false]).
Proof.
  intros He Hs. cbv zeta.
  pose proof (initialize_cases config db w) as E. cbv zeta in E.
  rewrite He, Hs in E. rewrite E. simpl.
  repeat split.
  intros io event t U R.
  destruct (group_message_effect io event
              (snd (initialize config db w)))
    as (_ & _ & _ & [(t' & R' & C) | (N & _)]); rewrite E in *; simpl in *.
  - rewrite C, U. now rewrite (recordable_unique R R').
  - now apply N in R.
Qed.

Lemma initialize_makes_ready_witness :
  engine (plugin (snd (initialize
                         (Some {| cfg_database_url := Some (lit "sqlite:///x.db");
                                  cfg_database_name := None;
                                  cfg_include_bot_messages := None;
                                  cfg_group_whitelist := None;
                                  cfg_group_blacklist := None |})
                         working fresh))) =
    Some (create_async_engine (lit "sqlite:///x.db")).
Proof.
  exact (proj1 (proj2 (@initialize_makes_ready
                         (Some {| cfg_database_url := Some (lit "sqlite:///x.db");
                                  cfg_database_name := None;
                                  cfg_include_bot_messages := None;
                                  cfg_group_whitelist := None;
                                  cfg_group_blacklist := None |})
                         working fresh eq_refl eq_refl))).
Defined.

(** X17. The session factory and the engine go together: starting from a
    plugin where the session factory is bound to the engine (the plugin of
    [__init__], which has neither), after any sequence of calls, failed
    initializations included, the plugin has a session factory exactly
    when it has an engine, and the factory is bound to that engine. *)
Theorem factory_follows_engine (cs : list call) (w : world) :
  factory_bound (plugin w) -> factory_bound (plugin (run cs w)).
Proof.
  revert w. induction cs as [|c cs IH]; intros w H; simpl; [exact H |].
  apply IH. destruct (is_initialize c) eqn:I.
  - destruct c as [config db | | |]; try discriminate. simpl.
    pose proof (initialize_plugin config db w) as E. cbv zeta in E.
    rewrite E. destruct (engine_creation db); [exact H | reflexivity].
  - now rewrite perform_plugin.
Qed.

Lemma factory_follows_engine_witness :
  factory_bound
    (plugin (run [Initialize None no_engine;
                  Initialize None no_schema;
                  Destroy None;
                  Initialize None working] fresh)).
Proof.
  exact (@factory_follows_engine
           [Initialize None no_engine; Initialize None no_schema;
            Destroy None; Initialize None working] fresh eq_refl).
Defined.

(** ** Disposal *)

Lemma perform_disposed (c : call) (w : world) :
  disposed (snd (perform c w)) =
    disposed w ++
      match c, engine (plugin w) with
      | Destroy None, Some e => [e]
      | _, _ => []
      end.
Proof.
  destruct c as [config db | io event | io event | o]; simpl.
  - pose proof (initialize_cases config db w) as E. cbv zeta in E. rewrite E.
    rewrite app_nil_r.
    destruct (engine_creation db), (schema_creation db); reflexivity.
  - rewrite app_nil_r. apply group_message_effect.
  - rewrite app_nil_r. apply bot_response_effect.
  - rewrite destroy_cases.
    destruct (engine (plugin w)), o; simpl; now rewrite ?app_nil_r.
Qed.

(** X18. Only [destroy] disposes of an engine: over any sequence of calls
    the engines disposed of before stay on record and no more are added
    than there are calls of [destroy].  [initialize] disposes of none, so
    that initializing again puts a new engine in place of the old one and
    lets the old one go undisposed. *)
Theorem only_destroy_disposes (cs : list call) (w : world) :
  (exists gone,
     disposed (run cs w) = disposed w ++ gone /\
     List.length gone <= List.length (filter is_destroy cs)) /\
  (forall config db, disposed (snd (initialize config db w)) = disposed w).
Proof.
  split.
  - revert w. induction cs as [|c cs IH]; intros w; simpl.
    + exists []. now rewrite app_nil_r.
    + destruct (IH (snd (perform c w))) as (gone & E & L).
      rewrite E, perform_disposed, <- app_assoc.
      eexists. split; [reflexivity |]. rewrite length_app.
      destruct c as [config db | io event | io event | [x |]]; simpl; try lia.
      destruct (engine (plugin w)); simpl; lia.
  - intros config db.
    pose proof (perform_disposed (Initialize config db) w) as E.
    simpl in E. now rewrite app_nil_r in E.
Qed.

(** Two initializations and one [destroy]: of the two engines made, the
    one in place at the end is disposed of, the first is not. *)
Example reinitialize_leaks :
  disposed
    (run [Initialize
            (Some {| cfg_database_url := Some (lit "sqlite:///old.db");
                     cfg_database_name := None;
                     cfg_include_bot_messages := None;
                     cfg_group_whitelist := None;
                     cfg_group_blacklist := None |}) working;
          Initialize
            (Some {| cfg_database_url := Some (lit "sqlite:///new.db");
                     cfg_database_name := None;
                     cfg_include_bot_messages := None;
                     cfg_group_whitelist := None;
                     cfg_group_blacklist := None |}) working;
          Destroy None] fresh) =
    [create_async_engine (lit "sqlite:///new.db")].
Proof. reflexivity. Qed.

(** ** After [destroy] *)

Section Respects.
Variable R : world -> world -> Prop.
Context {A B : Type}.

Lemma respects_ret (a : A) : respects R (ret a).
Proof. intros w1 w2 S. now split. Qed.

Lemma respects_raise (e : exn) : respects R (@raise A e).
Proof. intros w1 w2 S. now split. Qed.

Lemma respects_lift (r : result A) : respects R (lift r).
Proof. intros w1 w2 S. now split. Qed.

Lemma respects_bind (m : M A) (k : A -> M B) :
  respects R m -> (forall a, respects R (k a)) -> respects R (bind m k).
Proof.
  intros Hm Hk w1 w2 S. unfold bind.
  destruct (Hm w1 w2 S) as (E & S').
  destruct (m w1) as [[a1 | e1] w1'], (m w2) as [[a2 | e2] w2'];
    simpl in *; try discriminate.
  - inversion E; subst. now apply Hk.
  - inversion E; subst. now split.
Qed.

Lemma respects_try_except (body : M A) (handler : exn -> M A) :
  respects R body -> (forall e, respects R (handler e)) ->
  respects R (try_except body handler).
Proof.
  intros Hb Hh w1 w2 S. unfold try_except.
  destruct (Hb w1 w2 S) as (E & S').
  destruct (body w1) as [[a1 | e1] w1'], (body w2) as [[a2 | e2] w2'];
    simpl in *; try discriminate.
  - now split.
  - inversion E; subst. now apply Hh.
Qed.
End Respects.

Lemma table_get_self : respects same_table get_self.
Proof. intros w1 w2 (P & C). simpl. now rewrite P. Qed.

Lemma table_set_self (p : ChatLoggerPlugin) : respects same_table (set_self p).
Proof. intros w1 w2 (P & C). now repeat split. Qed.

Lemma table_logger (lvl : level) (m : log_msg) : respects same_table (logger lvl m).
Proof. intros w1 w2 (P & C). now repeat split. Qed.

Lemma table_commit (io : backend) (r : ChatRecord) : respects same_table (commit io r).
Proof.
  intros w1 w2 (P & C). unfold commit.
  destruct (unit_of_work io); simpl; repeat split; try assumption.
  simpl. now rewrite C.
Qed.

Lemma table_outcome (o : option exn) : respects same_table (outcome o).
Proof. destruct o; [apply respects_raise | apply respects_ret]. Qed.

(** Whether [dispose()] goes through is the driver's affair, and what it
    does changes the record of disposed engines alone. *)
Lemma table_dispose (o : option exn) (e : AsyncEngine) :
  respects same_table (dispose o e).
Proof.
  intros w1 w2 (P & C). unfold dispose.
  destruct o; simpl; now repeat split.
Qed.

Create HintDb table.
#[local] Hint Resolve respects_ret respects_raise respects_lift
  table_get_self table_set_self table_logger table_commit table_outcome
  table_dispose : table.

Ltac table :=
  repeat first
    [ solve [auto with table]
    | apply respects_bind; [| intro]
    | apply respects_try_except; [| intro]
    | match goal with
      | |- respects _ (if ?b then _ else _) => destruct b
      | |- respects _ (match ?x with _ => _ end) => destruct x
      end ].

Lemma table_save (io : backend) (u n : pyval) (m : pystr) (g : pyval) (b : bool) :
  respects same_table (_save_chat_record io u n m g b).
Proof. unfold _save_chat_record. table. Qed.

Lemma table_perform (c : call) : respects same_table (perform c).
Proof.
  destruct c as [config db | io event | io event | o]; simpl.
  - unfold initialize, _init_database. table.
  - unfold on_group_message_received. table; apply table_save.
  - unfold on_normal_message_responded. table; apply table_save.
  - unfold destroy. table.
Qed.

Lemma run_same_table (cs : list call) : forall w1 w2,
  same_table w1 w2 -> same_table (run cs w1) (run cs w2).
Proof.
  induction cs as [|c cs IH]; intros w1 w2 S; simpl; [exact S |].
  apply IH. now apply table_perform.
Qed.

(** X19. [destroy] does not close the store: it leaves the session factory
    in place, so that whatever is called afterwards, initializations and
    events alike, the plugin's fields and the table end up as they would
    have without the call of [destroy]; events that arrive after it are
    stored as before. *)
Theorem destroy_keeps_store_open (o : option exn) (cs : list call) (w : world) :
  plugin (run (Destroy o :: cs) w) = plugin (run cs w) /\
  chat_records (run (Destroy o :: cs) w) = chat_records (run cs w).
Proof.
  simpl. apply (run_same_table cs). rewrite destroy_cases.
  destruct (engine (plugin w)), o; now split.
Qed.

(** A group message after [destroy] is stored. *)
Example stored_after_destroy :
  map message
    (chat_records
       (run [Destroy None; GroupMessage accepting (alice (PyStr (lit "late")))]
          opened)) = [lit "late"].
Proof. reflexivity. Qed.

(** ** The two segments of a bot response *)

(** X20. A bot response is handled through the text its two segments make
    together: an absent segment and an empty one are the same, and two
    responses that differ only in where the prefix ends and the response
    text begins are handled alike. *)
Theorem bot_response_by_text (io : backend)
    (event event' : NormalMessageResponded.t) (w : world) :
  NormalMessageResponded.launcher_type event' =
    NormalMessageResponded.launcher_type event ->
  NormalMessageResponded.launcher_id event' =
    NormalMessageResponded.launcher_id event ->
  NormalMessageResponded.query event' = NormalMessageResponded.query event ->
  get_or (NormalMessageResponded.prefix event') [] ++
    get_or (NormalMessageResponded.response_text event') [] =
  get_or (NormalMessageResponded.prefix event) [] ++
    get_or (NormalMessageResponded.response_text event) [] ->
  on_normal_message_responded io event' w = on_normal_message_responded io event w.
Proof.
  intros T L Q F. rewrite <- !full_response_concat in F.
  unfold on_normal_message_responded, bot_user_id.
  fold (full_response event). fold (full_response event').
  now rewrite T, L, Q, F.
Qed.

Lemma bot_response_by_text_witness :
  on_normal_message_responded accepting
    {| NormalMessageResponded.launcher_type := PyStr (lit "group");
       NormalMessageResponded.launcher_id := PyStr (lit "g1");
       NormalMessageResponded.prefix := None;
       NormalMessageResponded.response_text := Some (lit "[bot] hi");
       NormalMessageResponded.query := PyNone |} opened =
  on_normal_message_responded accepting (reply (lit "group") PyNone) opened.
Proof.
  exact (@bot_response_by_text accepting (reply (lit "group") PyNone)
           {| NormalMessageResponded.launcher_type := PyStr (lit "group");
              NormalMessageResponded.launcher_id := PyStr (lit "g1");
              NormalMessageResponded.prefix := None;
              NormalMessageResponded.response_text := Some (lit "[bot] hi");
              NormalMessageResponded.query := PyNone |}
           opened eq_refl eq_refl eq_refl eq_refl).
Defined.

(** ** The log *)

Ltac one_entry :=
  first [ exists []; split; [now rewrite app_nil_r | simpl; lia]
        | eexists; split; [reflexivity | simpl; lia] ].

Lemma perform_log (c : call) (w : world) :
  exists entries,
    log (snd (perform c w)) = log w ++ entries /\
    List.length entries <= if is_initialize c then 5 else 1.
Proof.
  destruct c as [config db | io event | io event | o]; simpl.
  - pose proof (initialize_cases config db w) as E. cbv zeta in E. rewrite E.
    destruct (engine_creation db), (schema_creation db); simpl;
      rewrite <- ?app_assoc; simpl; eexists; (split; [reflexivity | simpl; lia]).
  - destruct (group_message_cases io event w) as [(t & _ & E) | (N & _)].
    + rewrite E, save_chat_record_cases.
      destruct (session_factory (plugin w)), (unit_of_work io); one_entry.
    + unfold on_group_message_received, try_except, bind, get_self, lift.
      destruct (_should_log_group (plugin w) _); simpl; [| one_entry].
      destruct (extract_message_text _) as [[| | | s | | sh attrs] |];
        simpl; try one_entry.
      * destruct (strip s) eqn:S; simpl; [one_entry |].
        rewrite save_chat_record_cases.
        destruct (session_factory (plugin w)), (unit_of_work io); one_entry.
      * destruct (assoc "strip" attrs); one_entry.
  - destruct (bot_response_cases io event w) as [(_ & E) | (N & _)].
    + rewrite E, save_chat_record_cases.
      destruct (session_factory (plugin w)), (unit_of_work io); one_entry.
    + unfold on_normal_message_responded, try_except, bind, get_self.
      destruct (include_bot_messages (plugin w)); simpl; [| one_entry].
      destruct (is_group _); simpl; [| one_entry].
      destruct (_should_log_group (plugin w) _); simpl; [| one_entry].
      destruct (strip _) eqn:S; simpl; [one_entry |].
      rewrite save_chat_record_cases.
      destruct (session_factory (plugin w)), (unit_of_work io); one_entry.
  - rewrite destroy_cases. destruct (engine (plugin w)), o; one_entry.
Qed.

(** X21. The log only grows, and slowly: a handled event and a call of
    [destroy] each add one entry at most, an initialization five at most,
    and no call removes or rewrites an entry. *)
Theorem log_append_only (cs : list call) (w : world) :
  exists entries,
    log (run cs w) = log w ++ entries /\
    List.length entries <=
      List.length (filter (fun c => negb (is_initialize c)) cs) +
      5 * List.length (filter is_initialize cs).
Proof.
  revert w. induction cs as [|c cs IH]; intros w; simpl.
  - exists []. now rewrite app_nil_r.
  - destruct (IH (snd (perform c w))) as (l & E & L).
    destruct (perform_log c w) as (l0 & E0 & L0).
    exists (l0 ++ l). rewrite E, E0, app_assoc. split; [reflexivity |].
    rewrite length_app. destruct (is_initialize c); simpl in *; lia.
Qed.
